(** * LOOK-DGC: recompression analysis, histogram, loader and dependency check

  A shallow embedding of the Python sources

  - [gui/multiplecompression.py]  ([MultipleCompressionWidget.run_graph],
    [MultipleCompressionWidget.run_heatmap]),
  - [validate_deps.py]            ([get_required_packages], [check_package],
    [check_tensorflow], [validate_dependencies]),

  and of the two functions of [gui/utility.py] that the unit tests exercise
  ([compute_hist], [load_image]).

  Conventions.  A numpy array is a shape together with its row-major
  element buffer.  Python objects that are passed by reference (numpy
  arrays) live in an object store and are named by their position in it;
  every [cv2] call that returns an array allocates a new object.  Python
  exceptions are an explicit outcome, threaded together with the state by a
  small state-and-exception monad. *)

From Stdlib Require Import ZArith List Floats Uint63 Permutation.
From stdpp Require Import base option list strings pretty.

Local Open Scope Z_scope.

(** ** numpy arrays *)

Module Numpy.

(** [numpy.ndarray] of dtype [uint8]: [shape] is the tuple of dimensions,
    [data] the elements in row-major (C) order. *)
Record ndarray : Type := mk_ndarray {
  shape : list nat;
  data  : list Z
}.

Global Instance ndarray_inhabited : Inhabited ndarray :=
  populate (mk_ndarray [] []).

Global Instance ndarray_eq_dec : EqDecision ndarray.
Proof. solve_decision. Defined.

(** [ndarray.size]: the number of elements announced by the shape. *)
Definition size (a : ndarray) : nat := foldr Nat.mul 1%nat (shape a).

(** Every element is an 8-bit unsigned value. *)
Definition uint8 (a : ndarray) : Prop := Forall (λ x, 0 ≤ x < 256) (data a).

(** The buffer has as many elements as the shape announces. *)
Definition well_shaped (a : ndarray) : Prop := length (data a) = size a.

Definition sumZ (xs : list Z) : Z := foldr Z.add 0 xs.

(** [numpy.mean] of an integer array: the elements are accumulated in
    binary64 and the sum is divided by the element count.  A sum of 8-bit
    values is an integer below 2^53 for every buffer of fewer than 2^45
    elements, hence exact in binary64, so the result is the binary64
    quotient of the exact sum by the count (NaN for an empty array). *)
Definition mean (a : ndarray) : float :=
  PrimFloat.div
    (PrimFloat.of_uint63 (Uint63.of_Z (sumZ (data a))))
    (PrimFloat.of_uint63 (Uint63.of_Z (Z.of_nat (length (data a))))).

End Numpy.
Export Numpy.

(** ** Python exceptions and outcomes *)

(** [cv2.error] carries the OpenCV status code; [ValueError] is what a
  tuple unpacking of the wrong arity raises. *)
Inductive exn : Type :=
| cv2_error (status : Z)
| ValueError.

Global Instance exn_eq_dec : EqDecision exn.
Proof. solve_decision. Defined.

Inductive outcome (A : Type) : Type :=
| Ok (a : A)
| Raise (e : exn).
Arguments Ok {A} a.
Arguments Raise {A} e.

Definition StsUnmatchedSizes : Z := -209.
Definition StsAssert : Z := -215.

(** ** The part of OpenCV the widget uses *)

Module Cv2.

Definition COLORMAP_JET : Z := 2.

(** The header of the [cv::Mat] that the binding lays over an 8-bit array:
    rows, columns and channels. *)
Record Mat : Type := mk_Mat {
  rows     : nat;
  cols     : nat;
  channels : nat
}.

Global Instance Mat_eq_dec : EqDecision Mat.
Proof. solve_decision. Defined.

Definition CV_CN_MAX : nat := 512.

(** A two-dimensional array is a matrix of one channel; the last axis of a
    three-dimensional array is taken as the channels when there are at most
    [CV_CN_MAX] of them.  Arrays of any other form are not images, and the
    model does not follow the binding into them. *)
Definition mat_of (a : ndarray) : option Mat :=
  match shape a with
  | [h; w] => Some (mk_Mat h w 1)
  | [h; w; c] =>
      if bool_decide (1 ≤ c ≤ CV_CN_MAX)%nat then Some (mk_Mat h w c) else None
  | _ => None
  end.

(** [None] is converted to the empty matrix [Mat()]: no rows, no columns,
    and the type [CV_8UC1]. *)
Definition empty_mat : Mat := mk_Mat 0 0 1.

(** [checkScalar] of OpenCV's [arithm.cpp]: beside an array of [cn]
    channels, an operand is taken for a scalar when it is 1 x 1, or a
    column or a row of [cn] entries.  (The fourth form, 1 x 4 of type
    [CV_64F], does not arise on 8-bit data.) *)
Definition checkScalar (sc : Mat) (cn : nat) : bool :=
  bool_decide (cols sc = 1 ∧ rows sc = 1)%nat
  || bool_decide (cols sc = 1 ∧ rows sc = cn)%nat
  || bool_decide (cols sc = cn ∧ rows sc = 1)%nat.

(** The status with which [arithm_op] rejects two 8-bit operands of
    different size or channels.  When one of them is taken for a scalar the
    assertion that a scalar is of type [CV_64F] fails ([StsAssert]);
    otherwise the operation is "neither array op array, nor array op
    scalar, nor scalar op array" ([StsUnmatchedSizes]). *)
Definition arithm_op_rejects (m1 m2 : Mat) : Z :=
  if checkScalar m1 (channels m2) || checkScalar m2 (channels m1)
  then StsAssert
  else StsUnmatchedSizes.

(** [cv2.absdiff] on two arrays: elementwise [|x - y|].  On 8-bit unsigned
    data the difference already lies in 0..255, so the saturating cast of
    the C++ code never clips.  Arrays of different shape that are one and
    the same matrix (a trailing axis of length one apart) are accepted too,
    and the result has two axes.  Other operands are rejected as
    [arithm_op] does; for arrays that are not images the model keeps
    [StsUnmatchedSizes], and the theorems that name a status are about
    images with pixels. *)
Definition absdiff (src1 src2 : ndarray) : outcome ndarray :=
  if decide (shape src1 = shape src2)
  then Ok (mk_ndarray (shape src1)
                      (zip_with (λ x y, Z.abs (x - y)) (data src1) (data src2)))
  else
    match mat_of src1, mat_of src2 with
    | Some m1, Some m2 =>
        if decide (m1 = m2)
        then Ok (mk_ndarray [rows m1; cols m1]
                            (zip_with (λ x y, Z.abs (x - y)) (data src1) (data src2)))
        else Raise (cv2_error (arithm_op_rejects m1 m2))
    | _, _ => Raise (cv2_error StsUnmatchedSizes)
    end.

(** [cv2.absdiff(src1, None)]: the second operand is the empty matrix, which
    is no scalar and has no size in common with an image that has pixels. *)
Definition absdiff_none (src1 : ndarray) : outcome ndarray :=
  match mat_of src1 with
  | Some m1 => Raise (cv2_error (arithm_op_rejects m1 empty_mat))
  | None => Raise (cv2_error StsUnmatchedSizes)
  end.

(** The functions whose result is decided by native code outside the
    repository: the JPEG encoder and decoder and the colour map, together
    with Python's rendering of the list of samples as text.

    - [imencode img q] is [cv2.imencode('.jpg', img, [IMWRITE_JPEG_QUALITY, q])]:
      it raises, or returns the pair [(retval, buf)];
    - [imdecode buf flags] is [cv2.imdecode(buf, flags)]: it raises, or
      returns an array, or returns [None]; the widget passes the flag 1
      ([IMREAD_COLOR]);
    - [applyColorMap src cmap] is [cv2.applyColorMap(src, cmap)];
    - [str_samples diffs] is [str(diffs)] for the list of pairs.

    All four are functions of their arguments: the codec is deterministic
    and never writes to the array it is given. *)
Class Native : Type := {
  imencode      : ndarray → Z → outcome (bool * ndarray);
  imdecode      : ndarray → Z → outcome (option ndarray);
  applyColorMap : ndarray → Z → outcome ndarray;
  str_samples   : list (Z * float) → string
}.

End Cv2.
Export Cv2.

(** ** The widget and its world *)

Module MultipleCompression.

(** A Python reference to a numpy array: its position in the object store. *)
Definition loc : Type := nat.

(** One call of the codec, as observed from outside: what was asked of it. *)
Inductive CodecCall : Type :=
| CallImencode (img : ndarray) (quality : Z)
| CallImdecode (buf : ndarray) (flags : Z).

(** A line drawn by [ax.plot(xs, ys, marker=...)]. *)
Record Line2D : Type := mk_Line2D {
  xdata  : list Z;
  ydata  : list float;
  marker : string
}.

(** A matplotlib [Axes]: its lines and its three captions. *)
Record Axes : Type := mk_Axes {
  lines  : list Line2D;
  xlabel : string;
  ylabel : string;
  title  : string
}.

(** The [QPixmap] obtained from [QImage(bits, w, h, bytesPerLine, Format_BGR888)]. *)
Record QPixmap : Type := mk_QPixmap {
  pm_width        : nat;
  pm_height       : nat;
  pm_bytesPerLine : nat;
  pm_bits         : list Z
}.

(** Everything [run_graph] and [run_heatmap] can read or change: the object
    store, the attributes of [self], the signal log and the log of codec
    calls. *)
Record World : Type := mk_World {
  heap          : list ndarray;       (* numpy objects, by allocation order *)
  image         : loc;                (* self.image *)
  result_label  : string;             (* text of self.result_label *)
  figure        : list Axes;          (* subplots of self.figure *)
  canvas_draws  : nat;                (* number of self.canvas.draw() so far *)
  heatmap_label : option QPixmap;     (* pixmap of self.heatmap_label *)
  info_messages : list string;        (* info_message emissions, oldest first *)
  codec_calls   : list CodecCall      (* codec calls, oldest first *)
}.

Definition set_heap (f : list ndarray → list ndarray) (w : World) : World :=
  mk_World (f (heap w)) (image w) (result_label w) (figure w) (canvas_draws w)
           (heatmap_label w) (info_messages w) (codec_calls w).
Definition set_result_label (s : string) (w : World) : World :=
  mk_World (heap w) (image w) s (figure w) (canvas_draws w)
           (heatmap_label w) (info_messages w) (codec_calls w).
Definition set_figure (f : list Axes → list Axes) (w : World) : World :=
  mk_World (heap w) (image w) (result_label w) (f (figure w)) (canvas_draws w)
           (heatmap_label w) (info_messages w) (codec_calls w).
Definition set_canvas_draws (f : nat → nat) (w : World) : World :=
  mk_World (heap w) (image w) (result_label w) (figure w) (f (canvas_draws w))
           (heatmap_label w) (info_messages w) (codec_calls w).
Definition set_heatmap_label (p : option QPixmap) (w : World) : World :=
  mk_World (heap w) (image w) (result_label w) (figure w) (canvas_draws w)
           p (info_messages w) (codec_calls w).
Definition set_info_messages (f : list string → list string) (w : World) : World :=
  mk_World (heap w) (image w) (result_label w) (figure w) (canvas_draws w)
           (heatmap_label w) (f (info_messages w)) (codec_calls w).
Definition set_codec_calls (f : list CodecCall → list CodecCall) (w : World) : World :=
  mk_World (heap w) (image w) (result_label w) (figure w) (canvas_draws w)
           (heatmap_label w) (info_messages w) (f (codec_calls w)).

(** The array a reference denotes.  A reference always denotes an object of
    the store; the theorems assume so for [self.image], and a position
    outside the store reads as the empty array. *)
Definition deref (w : World) (l : loc) : ndarray := heap w !!! l.

(** The pixels of [self.image]. *)
Definition image_of (w : World) : ndarray := deref w (image w).

(** *** The state-and-exception monad *)

Definition M (A : Type) : Type := World → outcome A * World.

Global Instance M_ret : MRet M := λ A a w, (Ok a, w).

(** A raised exception skips the rest; the state reached so far is kept. *)
Global Instance M_bind : MBind M := λ A B k m w,
  match m w with
  | (Ok a, w') => k a w'
  | (Raise e, w') => (Raise e, w')
  end.

Definition raise {A} (e : exn) : M A := λ w, (Raise e, w).
Definition gets {A} (f : World → A) : M A := λ w, (Ok (f w), w).
Definition modify (f : World → World) : M unit := λ w, (Ok tt, f w).
Definition lift {A} (o : outcome A) : M A := λ w, (o, w).

(** A [for x in xs:] loop whose body updates the loop-carried value. *)
Fixpoint for_in {A S} (xs : list A) (body : A → S → M S) (s : S) : M S :=
  match xs with
  | [] => mret s
  | x :: xs' => s' ← body x s; for_in xs' body s'
  end.

(** A new numpy object. *)
Definition alloc (a : ndarray) : M loc := λ w,
  (Ok (length (heap w)), set_heap (λ h, h ++ [a]) w).

Definition load (l : loc) : M ndarray := gets (λ w, deref w l).

(** The attribute [self.image]. *)
Definition self_image : M loc := gets image.

Definition log_call (c : CodecCall) : M unit :=
  modify (set_codec_calls (λ cs, cs ++ [c])).

Section Widget.
Context `{cv : Native}.

(** *** [cv2] and [numpy] calls on references *)

Definition cv2_imencode (img : loc) (quality : Z) : M (bool * loc) :=
  a ← load img;
  log_call (CallImencode a quality);;
  '(retval, buf) ← lift (imencode a quality);
  l ← alloc buf;
  mret (retval, l).

(** The result is [None] when the buffer cannot be decoded. *)
Definition cv2_imdecode (buf : loc) (flags : Z) : M (option loc) :=
  b ← load buf;
  log_call (CallImdecode b flags);;
  r ← lift (imdecode b flags);
  match r with
  | Some a => l ← alloc a; mret (Some l)
  | None => mret None
  end.

(** [None] is accepted by the binding as the empty matrix, and it is
    [arithm_op] that rejects it. *)
Definition cv2_absdiff (src1 : loc) (src2 : option loc) : M loc :=
  match src2 with
  | None =>
      a ← load src1;
      d ← lift (absdiff_none a);
      alloc d
  | Some l2 =>
      a ← load src1;
      b ← load l2;
      d ← lift (absdiff a b);
      alloc d
  end.

Definition np_mean (a : loc) : M float :=
  x ← load a; mret (mean x).

Definition cv2_applyColorMap (src : loc) (colormap : Z) : M loc :=
  a ← load src;
  r ← lift (applyColorMap a colormap);
  alloc r.

(** *** Qt and matplotlib calls *)

Definition info_message_emit (msg : string) : M unit :=
  modify (set_info_messages (λ ms, ms ++ [msg])).

Definition result_label_setText (msg : string) : M unit :=
  modify (set_result_label msg).

Definition figure_clear : M unit := modify (set_figure (λ _, [])).

(** [self.figure.add_subplot(111)]: a new, empty [Axes]; the result names it. *)
Definition figure_add_subplot : M nat := λ w,
  (Ok (length (figure w)), set_figure (λ f, f ++ [mk_Axes [] EmptyString EmptyString EmptyString]) w).

Definition on_axes (ax : nat) (f : Axes → Axes) : M unit :=
  modify (set_figure (alter f ax)).

Definition ax_plot (ax : nat) (xs : list Z) (ys : list float) (m : string) : M unit :=
  on_axes ax (λ a, mk_Axes (lines a ++ [mk_Line2D xs ys m]) (xlabel a) (ylabel a) (title a)).
Definition ax_set_xlabel (ax : nat) (s : string) : M unit :=
  on_axes ax (λ a, mk_Axes (lines a) s (ylabel a) (title a)).
Definition ax_set_ylabel (ax : nat) (s : string) : M unit :=
  on_axes ax (λ a, mk_Axes (lines a) (xlabel a) s (title a)).
Definition ax_set_title (ax : nat) (s : string) : M unit :=
  on_axes ax (λ a, mk_Axes (lines a) (xlabel a) (ylabel a) s).

Definition canvas_draw : M unit := modify (set_canvas_draws S).

(** [qualities, values = zip( *diffs)]: the two columns of the list of pairs;
    an empty list has no columns to unpack. *)
Definition unzip_samples (diffs : list (Z * float)) : M (list Z * list float) :=
  match diffs with
  | [] => raise ValueError
  | _ => mret (map fst diffs, map snd diffs)
  end.

(** [h, w, ch = heatmap.shape] *)
Definition unpack_shape3 (a : ndarray) : M (nat * nat * nat) :=
  match shape a with
  | [h; w; ch] => mret (h, w, ch)
  | _ => raise ValueError
  end.

Definition heatmap_label_setPixmap (p : QPixmap) : M unit :=
  modify (set_heatmap_label (Some p)).

(** *** [run_graph] *)

Definition qualities : list Z := [95; 90; 85; 80; 75; 70; 65; 60; 55; 50].

(** The body of the loop of [run_graph], for the quality [q] and the list
    [diffs] accumulated so far. *)
Definition graph_step (q : Z) (diffs : list (Z * float)) : M (list (Z * float)) :=
  img ← self_image;
  '(_, encimg) ← cv2_imencode img q;
  decimg ← cv2_imdecode encimg 1;
  img ← self_image;
  d ← cv2_absdiff img decimg;
  diff ← np_mean d;
  mret (diffs ++ [(q, diff)]).

(** The first half of [run_graph]: the sweep that fills [diffs]. *)
Definition recompression_curve : M (list (Z * float)) :=
  for_in qualities graph_step [].

(** The second half of [run_graph]: the message, the label and the plot. *)
Definition show_curve (diffs : list (Z * float)) : M unit :=
  let msg := "Recompression diffs: " +:+ str_samples diffs in
  info_message_emit msg;;
  result_label_setText msg;;
  figure_clear;;
  ax ← figure_add_subplot;
  '(qs, values) ← unzip_samples diffs;
  ax_plot ax qs values "o";;
  ax_set_xlabel ax "JPEG Quality";;
  ax_set_ylabel ax "Difference";;
  ax_set_title ax "Multiple Compression Analysis";;
  canvas_draw.

Definition run_graph : M unit :=
  diffs ← recompression_curve;
  show_curve diffs.

(** *** [run_heatmap] *)

(** The first three statements of [run_heatmap]: the round trip at quality
    70 and the difference image. *)
Definition heatmap_difference : M loc :=
  img ← self_image;
  '(_, encimg) ← cv2_imencode img 70;
  decimg ← cv2_imdecode encimg 1;
  img ← self_image;
  cv2_absdiff img decimg.

(** The rest of [run_heatmap]: colour map, [QImage] over the heat map's
    buffer, pixmap of the label. *)
Definition show_heatmap (diff_img : loc) : M unit :=
  heatmap ← cv2_applyColorMap diff_img COLORMAP_JET;
  hm ← load heatmap;
  '(h, w, ch) ← unpack_shape3 hm;
  heatmap_label_setPixmap (mk_QPixmap w h (ch * w) (data hm)).

Definition run_heatmap : M unit :=
  diff_img ← heatmap_difference;
  show_heatmap diff_img.

(** *** What the two methods compute, the store left aside

    The loop body, the sweep and the difference image as functions of the
    pixels of [self.image] alone.  The theorems below relate the stateful
    code to them. *)

(** The calls the loop body makes to the codec for the level [q]. *)
Definition calls (img : ndarray) (q : Z) : list CodecCall :=
  CallImencode img q ::
  match imencode img q with
  | Ok (_, buf) => [CallImdecode buf 1]
  | Raise _ => []
  end.

(** The difference image of the round trip at level [q]. *)
Definition difference (img : ndarray) (q : Z) : outcome ndarray :=
  match imencode img q with
  | Raise e => Raise e
  | Ok (_, buf) =>
      match imdecode buf 1 with
      | Raise e => Raise e
      | Ok None => absdiff_none img
      | Ok (Some dec) => absdiff img dec
      end
  end.

(** The sample of the level [q]. *)
Definition sample (img : ndarray) (q : Z) : outcome (Z * float) :=
  match difference img q with
  | Ok d => Ok (q, mean d)
  | Raise e => Raise e
  end.

(** The samples of the levels [qs], appended to [diffs], up to the first
    level that fails. *)
Fixpoint sweep (img : ndarray) (qs : list Z) (diffs : list (Z * float))
  : outcome (list (Z * float)) :=
  match qs with
  | [] => Ok diffs
  | q :: qs' =>
      match sample img q with
      | Ok s => sweep img qs' (diffs ++ [s])
      | Raise e => Raise e
      end
  end.

(** The codec calls of that sweep: those of every level up to and including
    the first that fails. *)
Fixpoint sweep_calls (img : ndarray) (qs : list Z) : list CodecCall :=
  match qs with
  | [] => []
  | q :: qs' =>
      calls img q ++
      match sample img q with
      | Ok _ => sweep_calls img qs'
      | Raise _ => []
      end
  end.

(** The mean absolute difference of two arrays, as the specification words
    it: the mean over all elements of [|a - b|]. *)
Definition mean_abs_diff (a b : ndarray) : float :=
  mean (mk_ndarray (shape a) (zip_with (λ x y, Z.abs (x - y)) (data a) (data b))).

(** The axes [run_graph] leaves in the figure for the curve [diffs]. *)
Definition curve_axes (diffs : list (Z * float)) : Axes :=
  mk_Axes [mk_Line2D (map fst diffs) (map snd diffs) "o"]
          "JPEG Quality" "Difference" "Multiple Compression Analysis".

End Widget.

(** The widget's attributes other than the store and the call log are the
    same in both worlds. *)
Definition same_display (w w' : World) : Prop :=
  result_label w' = result_label w ∧ figure w' = figure w ∧
  canvas_draws w' = canvas_draws w ∧ heatmap_label w' = heatmap_label w ∧
  info_messages w' = info_messages w.

End MultipleCompression.

(** ** [gui/utility.py]: histogram and loader *)

Module Utility.

(** Modelled from the spec: [compute_hist] of [gui/utility.py], which is not
    among the sources (only its test is).  The specification asks for a
    "single-channel 256-bin count": an ordered sequence of 256 counts indexed
    by intensity, bin [v] counting the pixels of intensity [v]. *)
Definition compute_hist (image : ndarray) : list Z :=
  map (λ v, Z.of_nat (length (filter (λ x, x = v) (data image)))) (seqZ 0 256).

(** Modelled from the spec: the failures of the loader of [gui/utility.py]
    (not among the sources), as the specification names them. *)
Inductive LoadError : Type :=
| SourceUnavailable
| EmptyImage
| UnsupportedFormat.

(** Modelled from the spec: what the loader of [gui/utility.py] (not among
    the sources) is handed: an unreadable file, a decoded raster of 1, 3 or 4
    interleaved channels (shape [[h; w]] or [[h; w; c]]), or the bytes of a
    RAW sensor format. *)
Inductive Source : Type :=
| Unreadable
| Decoded (buf : ndarray)
| RawSensor (bytes : list Z).

(** Modelled from the spec: "replicate the single channel into all three
    output channels". *)
Definition replicate_gray (xs : list Z) : list Z :=
  flat_map (λ x, [x; x; x]) xs.

(** Modelled from the spec: "discard the 4th (alpha) channel; the remaining
    3 channels pass through unchanged": each pixel of four interleaved
    channels is reduced to its first three. *)
Fixpoint drop_alpha (xs : list Z) : list Z :=
  match xs with
  | c0 :: c1 :: c2 :: _ :: rest => c0 :: c1 :: c2 :: drop_alpha rest
  | _ => []
  end.

(** Modelled from the spec: the channel normalisation of [load_image]
    ([gui/utility.py], not among the sources).  "Single-channel input:
    replicate the single channel into all three output channels.  4-channel
    input: discard the 4th (alpha) channel; the remaining 3 channels pass
    through unchanged, no alpha compositing".  A zero-area buffer is
    [EmptyImage]; a channel count other than 1, 3 or 4 is not a canonical
    source. *)
Definition canonicalize (buf : ndarray) : LoadError + ndarray :=
  if decide (size buf = 0%nat) then inl EmptyImage else
  match shape buf with
  | [h; w] | [h; w; 1%nat] => inr (mk_ndarray [h; w; 3%nat] (replicate_gray (data buf)))
  | [h; w; 3%nat] => inr buf
  | [h; w; 4%nat] => inr (mk_ndarray [h; w; 3%nat] (drop_alpha (data buf)))
  | _ => inl UnsupportedFormat
  end.

(** Modelled from the spec: [load_image] of [gui/utility.py] (not among the
    sources), on an already opened source.  An unreadable file is
    [SourceUnavailable]; RAW data is handed to the demosaicing capability
    [demosaic] when the caller supplied one and is [UnsupportedFormat]
    otherwise; every raster goes through [canonicalize]. *)
Definition load_image (demosaic : option (list Z → ndarray)) (src : Source)
  : LoadError + ndarray :=
  match src with
  | Unreadable => inl SourceUnavailable
  | Decoded buf => canonicalize buf
  | RawSensor bytes =>
      match demosaic with
      | Some f => canonicalize (f bytes)
      | None => inl UnsupportedFormat
      end
  end.

End Utility.

(** ** [validate_deps.py] *)

Module ValidateDeps.

(** [get_required_packages]: the dictionary, as its items in insertion
    order (package name, import name). *)
Definition get_required_packages : list (string * string) :=
  [ ("PySide6", "PySide6");
    ("opencv-contrib-python-headless", "cv2");
    ("numpy", "numpy");
    ("Pillow", "PIL");
    ("matplotlib", "matplotlib");
    ("pandas", "pandas");
    ("scikit-learn", "sklearn");
    ("lxml", "lxml");
    ("python-magic", "magic");
    ("rawpy", "rawpy");
    ("sewar", "sewar");
    ("PyWavelets", "pywt");
    ("astor", "astor");
    ("concurrent-iterator", "concurrent_iterator");
    ("keras-applications", "keras_applications");
    ("xgboost", "xgboost") ].

(** The interpreter's environment: for every module name, whether importing
    it succeeds ([None]) or raises [ImportError] with a message ([Some msg]);
    and the [__version__] of the TensorFlow module. *)
Record PyEnv : Type := mk_PyEnv {
  import_module : string → option string;
  tf_version    : string
}.

(** The import name of [item] imports in [env]. *)
Definition importable (env : PyEnv) (item : string * string) : Prop :=
  import_module env item.2 = None.

Global Instance importable_dec env item : Decision (importable env item).
Proof. unfold importable. apply _. Defined.

Definition check_package (env : PyEnv) (package_name import_name : string)
  : bool * string :=
  match import_module env import_name with
  | None => (true, "✓ " +:+ package_name +:+ " is available")
  | Some e => (false, "✗ " +:+ package_name +:+ " is missing: " +:+ e)
  end.

Definition check_tensorflow (env : PyEnv) : bool * string :=
  match import_module env "tensorflow" with
  | None => (true, "✓ TensorFlow " +:+ tf_version env +:+ " is available")
  | Some _ => (false, "⚠ TensorFlow not found - some advanced features will be disabled")
  end.

(** Standard output: the arguments of the [print] calls, oldest first. *)
Definition Out (A : Type) : Type := list string → A * list string.

Global Instance Out_ret : MRet Out := λ A a out, (a, out).
Global Instance Out_bind : MBind Out := λ A B k m out,
  let '(a, out') := m out in k a out'.

Definition print (s : string) : Out unit := λ out, (tt, out ++ [s]).

Definition when (b : bool) (m : Out unit) : Out unit :=
  if b then m else mret tt.

Fixpoint for_items {A S} (xs : list A) (body : A → S → Out S) (s : S) : Out S :=
  match xs with
  | [] => mret s
  | x :: xs' => s' ← body x s; for_items xs' body s'
  end.

(** [s * n] on strings. *)
Fixpoint str_mul (s : string) (n : nat) : string :=
  match n with
  | O => EmptyString
  | S n' => s +:+ str_mul s n'
  end.

Definition newline : string := String (Ascii.ascii_of_nat 10) EmptyString.

(** The body of the loop over [required_packages.items()]; the loop carries
    the two lists. *)
Definition check_step (env : PyEnv) (detailed : bool)
    (item : string * string) (acc : list string * list string)
  : Out (list string * list string) :=
  let '(package_name, import_name) := item in
  let '(available_packages, missing_packages) := acc in
  let '(is_available, message) := check_package env package_name import_name in
  when detailed (print ("  " +:+ message));;
  if is_available
  then mret (available_packages ++ [package_name], missing_packages)
  else mret (available_packages, missing_packages ++ [package_name]).

Definition validate_dependencies (env : PyEnv) (detailed : bool)
  : Out (bool * list string * list string) :=
  when detailed (
    print "🔍 Validating LOOK-DGC dependencies...";;
    print (str_mul "=" 50));;
  let required_packages := get_required_packages in
  let '(tf_available, tf_message) := check_tensorflow env in
  when detailed (print tf_message);;
  when detailed (print (newline +:+ "📦 Required packages:"));;
  '(available_packages, missing_packages) ←
    for_items required_packages (check_step env detailed) ([], []);
  when detailed (
    print (newline +:+ str_mul "=" 50);;
    print ("✅ Available: " +:+ pretty (length available_packages) +:+ "/"
             +:+ pretty (length required_packages));;
    match missing_packages with
    | _ :: _ =>
        print ("❌ Missing: " +:+ pretty (length missing_packages));;
        for_items missing_packages (λ pkg _, print ("   - " +:+ pkg)) tt
    | [] => print "✅ All required packages are installed!"
    end;;
    when (negb tf_available) (print "⚠ TensorFlow is recommended for full functionality"));;
  mret (bool_decide (length missing_packages = 0%nat), available_packages, missing_packages).

End ValidateDeps.

(** ** Concrete codecs, images and environments

    Small deterministic stand-ins for the native code, on which the
    theorems are exercised. *)

Module Fixtures.
Import MultipleCompression ValidateDeps.

(** The quantisation step of the toy codec.  The level is first clamped to
    0..100, as OpenCV's JPEG encoder does with [IMWRITE_JPEG_QUALITY]; the
    step is 1 at level 100 and 11 at level 0. *)
Definition toy_step (q : Z) : Z := (100 - Z.max 0 (Z.min 100 q)) / 10 + 1.

(** The toy encoder: three-channel images only; the buffer holds the step,
    the two dimensions and the quantised elements. *)
Definition toy_imencode (img : ndarray) (q : Z) : outcome (bool * ndarray) :=
  match shape img with
  | [h; w; 3%nat] =>
      let payload :=
        toy_step q :: Z.of_nat h :: Z.of_nat w :: map (λ x, x / toy_step q) (data img) in
      Ok (true, mk_ndarray [length payload] payload)
  | _ => Raise (cv2_error (-215))
  end.

(** The toy decoder: [None] on a buffer without header. *)
Definition toy_imdecode (buf : ndarray) (flags : Z) : outcome (option ndarray) :=
  match data buf with
  | step :: h :: w :: body =>
      Ok (Some (mk_ndarray [Z.to_nat h; Z.to_nat w; 3%nat]
                           (map (λ x, Z.min 255 (x * step)) body)))
  | _ => Ok None
  end.

Definition toy_str_samples (diffs : list (Z * float)) : string :=
  pretty (length diffs) +:+ " samples".

Definition toy : Native := {|
  imencode := toy_imencode;
  imdecode := toy_imdecode;
  applyColorMap := λ src _, Ok src;
  str_samples := toy_str_samples
|}.

(** A codec whose encoder gives up below level 80. *)
Definition flaky : Native := {|
  imencode := λ img q, if decide (q < 80) then Raise (cv2_error (-2)) else toy_imencode img q;
  imdecode := toy_imdecode;
  applyColorMap := λ src _, Ok src;
  str_samples := toy_str_samples
|}.

(** A codec that is lossless at level 50 and below and lossy above. *)
Definition perverse : Native := {|
  imencode := λ img q, toy_imencode img (if decide (q ≤ 50) then 100 else 0);
  imdecode := toy_imdecode;
  applyColorMap := λ src _, Ok src;
  str_samples := toy_str_samples
|}.

(** A 2 x 2 image of three channels. *)
Definition img0 : ndarray :=
  mk_ndarray [2; 2; 3]%nat [13; 27; 31; 44; 58; 62; 71; 85; 99; 103; 117; 250].

(** The round trip of [img0] through the toy codec at level [q]. *)
Definition toy_round_trip (q : Z) : ndarray :=
  mk_ndarray [2; 2; 3]%nat
    (map (λ x, Z.min 255 (x / toy_step q * toy_step q)) (data img0)).

(** The curve of [img0] under the toy codec: the sums of the absolute
    differences over the twelve elements. *)
Definition toy_curve : list (Z * float) :=
  [ (95, (0 / 12)%float); (90, (8 / 12)%float); (85, (8 / 12)%float);
    (80, (12 / 12)%float); (75, (12 / 12)%float); (70, (24 / 12)%float);
    (65, (24 / 12)%float); (60, (25 / 12)%float); (55, (25 / 12)%float);
    (50, (30 / 12)%float) ].

(** What the toy encoder returns for [img0] at level 70. *)
Definition toy_buf70 : ndarray :=
  mk_ndarray [15%nat] [4; 2; 2; 3; 6; 7; 11; 14; 15; 17; 21; 24; 25; 29; 62].

(** The 100 x 100 gradient of the test suite: the pixel at row [i] and column
    [j] is [[2 * i; 2 * j; i + j]]. *)
Definition gradient : ndarray :=
  mk_ndarray [100; 100; 3]%nat
    (flat_map (λ i, flat_map (λ j, [2 * i; 2 * j; i + j]) (seqZ 0 100)) (seqZ 0 100)).

(** A widget that has just been created on [img0]. *)
Definition w0 : World := mk_World [img0] 0%nat EmptyString [] 0 None [] [].

(** A widget on an equal image, in a store that holds other arrays, after
    earlier work has left text, a plot and a pixmap behind. *)
Definition w1 : World :=
  mk_World [mk_ndarray [1%nat] [7]; img0; mk_ndarray [2%nat] [1; 2]] 1%nat
           "Recompression diffs: old"
           [mk_Axes [] "x" "y" "t"] 3 (Some (mk_QPixmap 1 1 3 [0; 0; 0]))
           ["Detects multiple JPEG compressions"]
           [CallImencode (mk_ndarray [1%nat] [7]) 70].

(** A single-channel 2 x 3 image. *)
Definition gray0 : ndarray := mk_ndarray [2; 3]%nat [0; 255; 7; 7; 128; 7].

(** A four-channel (BGRA) 1 x 2 image. *)
Definition bgra0 : ndarray := mk_ndarray [1; 2; 4]%nat [1; 2; 3; 255; 4; 5; 6; 0].

(** An interpreter in which everything but [rawpy] and [xgboost] imports. *)
Definition env0 : PyEnv :=
  mk_PyEnv (λ m, if decide (m = "rawpy" ∨ m = "xgboost")
                 then Some ("No module named '" +:+ m +:+ "'") else None)
           "2.15.0".

(** The same interpreter without TensorFlow. *)
Definition env0_no_tf : PyEnv :=
  mk_PyEnv (λ m, if decide (m = "tensorflow") then Some "No module named 'tensorflow'"
                 else import_module env0 m)
           EmptyString.

End Fixtures.

(** ** [validate_deps.py]: guidance and entry point *)

Module ValidateDepsCli.
Import ValidateDeps.

(** [sep.join(xs)] *)
Fixpoint str_join (sep : string) (xs : list string) : string :=
  match xs with
  | [] => EmptyString
  | [x] => x
  | x :: xs' => x +:+ sep +:+ str_join sep xs'
  end.

Definition get_installation_guidance (missing_packages : list string) : string :=
  match missing_packages with
  | [] => "All dependencies are satisfied."
  | _ :: _ =>
      let guidance := "🔧 Installation Options:" +:+ newline +:+ newline in
      let guidance := guidance +:+ "1. Automatic installation (recommended):" +:+ newline in
      let guidance := guidance +:+ "   python check_deps.py" +:+ newline +:+ newline in
      let guidance := guidance +:+ "2. Manual installation via requirements.txt:" +:+ newline in
      let guidance := guidance +:+ "   pip install -r gui/requirements.txt" +:+ newline +:+ newline in
      let guidance :=
        match missing_packages with
        | _ :: _ =>
            let guidance := guidance +:+ "3. Install individual missing packages:" +:+ newline in
            let package_list := str_join " " missing_packages in
            guidance +:+ "   pip install " +:+ package_list +:+ newline +:+ newline
        | [] => guidance
        end in
      let all_packages := map fst get_required_packages in
      let all_package_list := str_join " " all_packages in
      let guidance := guidance +:+ "4. Install all required packages:" +:+ newline in
      guidance +:+ "   pip install " +:+ all_package_list +:+ newline
  end.

(** [main] of [validate_deps.py]; the result is the exit status.
    [check_deps_exists] tells whether [check_deps.py] lies beside the
    script. *)
Definition main (env : PyEnv) (check_deps_exists : bool) : Out Z :=
  print "LOOK-DGC Dependency Validator";;
  print (str_mul "=" 40);;
  '(all_good, available, missing) ← validate_dependencies env true;
  match missing with
  | _ :: _ =>
      print (newline +:+ str_mul "=" 50);;
      print (get_installation_guidance missing);;
      when check_deps_exists (
        print (newline +:+ "💡 Quick fix:");;
        print "   python check_deps.py")
  | [] => mret tt
  end;;
  mret (if all_good : bool then 0 else 1).

(** [word] occurs in [text]. *)
Definition mentions (text word : string) : Prop :=
  ∃ pre post, text = pre +:+ word +:+ post.

End ValidateDepsCli.

(** ** [launch_look_dgc.py] *)

Module Launch.
Import ValidateDeps ValidateDepsCli.

(** How [subprocess.run(argv, check=True)] ends: normally, by an interrupt
    from the keyboard, because the program was not found, or by any other
    [Exception] (a non-zero exit status among them), whose text is [msg]. *)
Inductive ProcessResult : Type :=
| Completed
| KeyboardInterrupt
| FileNotFoundError
| Failed (msg : string).

(** The machine the launcher runs on. *)
Record Host : Type := mk_Host {
  py             : PyEnv;                       (* the interpreter's modules *)
  connects       : bool;                        (* socket.create_connection(("8.8.8.8", 53), timeout=3) succeeds *)
  here           : string;                      (* os.path.dirname(__file__) *)
  path_join      : string → string → string;    (* os.path.join *)
  path_exists    : string → bool;               (* os.path.exists *)
  executable     : string;                      (* sys.executable *)
  subprocess_run : list string → option string → ProcessResult;
                                                (* argv, directory changed to *)
  str_strip      : string → string;             (* str.strip *)
  str_lower      : string → string              (* str.lower *)
}.

Definition check_internet (host : Host) : bool := connects host.

(** The body of the loop of [check_dependencies_basic]; the loop carries
    [missing_packages] and [available_packages]. *)
Definition basic_step (env : PyEnv)
    (item : string * string) (acc : list string * list string)
  : Out (list string * list string) :=
  let '(package_name, import_name) := item in
  let '(missing_packages, available_packages) := acc in
  match import_module env import_name with
  | None =>
      ValidateDeps.print ("✓ " +:+ package_name);;
      mret (missing_packages, available_packages ++ [package_name])
  | Some _ =>
      ValidateDeps.print ("✗ " +:+ package_name +:+ " (missing)");;
      mret (missing_packages ++ [package_name], available_packages)
  end.

Definition check_dependencies_basic (env : PyEnv)
  : Out (bool * list string * list string) :=
  ValidateDeps.print "Checking Python dependencies...";;
  let required_packages :=
    [ ("PySide6", "PySide6");
      ("opencv-contrib-python-headless", "cv2");
      ("numpy", "numpy");
      ("Pillow", "PIL");
      ("matplotlib", "matplotlib");
      ("pandas", "pandas");
      ("scikit-learn", "sklearn");
      ("lxml", "lxml");
      ("python-magic", "magic");
      ("rawpy", "rawpy");
      ("sewar", "sewar");
      ("PyWavelets", "pywt");
      ("astor", "astor");
      ("concurrent-iterator", "concurrent_iterator");
      ("keras-applications", "keras_applications");
      ("xgboost", "xgboost") ] in
  tensorflow_available ←
    match import_module env "tensorflow" with
    | None => ValidateDeps.print "✓ TensorFlow available";; mret true
    | Some _ =>
        ValidateDeps.print "⚠ TensorFlow not found - some advanced features will be disabled";;
        mret false
    end;
  '(missing_packages, available_packages) ←
    for_items required_packages (basic_step env) ([], []);
  let all_good := bool_decide (length missing_packages = 0%nat) in
  (if negb all_good then
     ValidateDeps.print (newline +:+ "❌ Missing " +:+ pretty (length missing_packages)
                           +:+ " required dependencies:");;
     for_items missing_packages (λ package_name _, ValidateDeps.print ("   - " +:+ package_name)) tt;;
     ValidateDeps.print (newline +:+ "🔧 Installation options:");;
     ValidateDeps.print "1. Automatic installation (recommended):";;
     ValidateDeps.print "   python check_deps.py";;
     ValidateDeps.print (newline +:+ "2. Manual installation:");;
     ValidateDeps.print "   pip install -r gui/requirements.txt";;
     ValidateDeps.print (newline +:+ "3. Install individual packages:");;
     ValidateDeps.print ("   pip install " +:+ str_join " " missing_packages)
   else
     ValidateDeps.print (newline +:+ "✅ All " +:+ pretty (length available_packages)
                           +:+ " required dependencies are installed");;
     when (negb tensorflow_available)
          (ValidateDeps.print "⚠ Note: TensorFlow is recommended for full functionality"));;
  mret (all_good, available_packages, missing_packages).

(** [check_dependencies]: the validator when [validate_deps.py] lies beside
    the script and imports, the basic check otherwise. *)
Definition check_dependencies (host : Host)
  : Out (bool * list string * list string) :=
  let validator_path := path_join host (here host) "validate_deps.py" in
  if path_exists host validator_path then
    match import_module (py host) "validate_deps" with
    | None => validate_dependencies (py host) true
    | Some _ => check_dependencies_basic (py host)
    end
  else check_dependencies_basic (py host).

(** The console and the process state: what was written, the lines still to
    be read from standard input, the directory changed to, and the programs
    started, each with the directory it was started from. *)
Record Console : Type := mk_Console {
  stdout   : list string;
  stdin    : list string;
  cwd      : option string;
  launched : list (list string * option string)
}.

(** A call returns, or [input] has raised [EOFError]. *)
Inductive result (A : Type) : Type :=
| Returned (a : A)
| EOFError.
Arguments Returned {A} a.
Arguments EOFError {A}.

Definition IO (A : Type) : Type := Console → result A * Console.

Global Instance IO_ret : MRet IO := λ A a c, (Returned a, c).
Global Instance IO_bind : MBind IO := λ A B k m c,
  match m c with
  | (Returned a, c') => k a c'
  | (EOFError, c') => (EOFError, c')
  end.

(** A computation that only prints. *)
Definition lift_out {A} (m : Out A) : IO A := λ c,
  let '(a, out) := m (stdout c) in
  (Returned a, mk_Console out (stdin c) (cwd c) (launched c)).

Definition print (s : string) : IO unit := lift_out (ValidateDeps.print s).

(** [input(prompt)]: the prompt is written, then a line is read. *)
Definition input (prompt : string) : IO string := λ c,
  let c' := mk_Console (stdout c ++ [prompt]) (stdin c) (cwd c) (launched c) in
  match stdin c with
  | [] => (EOFError, c')
  | line :: rest =>
      (Returned line, mk_Console (stdout c') rest (cwd c') (launched c'))
  end.

(** [os.chdir(d)] into a directory that can be entered.  The launcher calls
    it, outside its [try] statement, on the directory [os.path.exists] has
    just answered for; a directory that exists and cannot be entered is not
    modelled, and nothing below concludes that [main] is free of
    exceptions. *)
Definition chdir (d : string) : IO unit := λ c,
  (Returned tt, mk_Console (stdout c) (stdin c) (Some d) (launched c)).

Definition run (host : Host) (argv : list string) : IO ProcessResult := λ c,
  (Returned (subprocess_run host argv (cwd c)),
   mk_Console (stdout c) (stdin c) (cwd c) (launched c ++ [(argv, cwd c)])).

(** The end of [main]: the change of directory and the [try] statement. *)
Definition launch (host : Host) (gui_dir : string) : IO unit :=
  chdir gui_dir;;
  print "Starting LOOK-DGC...";;
  r ← run host [executable host; "look-dgc.py"];
  match r with
  | Completed => mret tt
  | KeyboardInterrupt => print (newline +:+ "Application closed by user")
  | FileNotFoundError =>
      print "Error: look-dgc.py not found in gui directory";;
      input "Press Enter to exit...";;
      mret tt
  | Failed e =>
      print ("Error launching LOOK-DGC: " +:+ e);;
      input "Press Enter to exit...";;
      mret tt
  end.

Definition main (host : Host) : IO unit :=
  print (str_mul "=" 50);;
  print "  LOOK-DGC - Digital Image Forensics Toolkit";;
  print "  Developed by: Gopichand";;
  print (str_mul "=" 50);;
  let online := check_internet host in
  (if online then
     print "  🌐 Status: Online - Full features available";;
     print "  📡 Hex editor: Online (HexEd.it) + Offline built-in viewer ready"
   else
     print "  📡 Status: Offline - Limited features available";;
     print "  💾 Hex editor: Offline built-in viewer ready");;
  print EmptyString;;
  let gui_dir := path_join host (here host) "gui" in
  if negb (path_exists host gui_dir) then
    print ("Error: GUI directory not found at " +:+ gui_dir);;
    input "Press Enter to exit...";;
    mret tt
  else
    '(deps_ok, available, missing) ← lift_out (check_dependencies host);
    if negb deps_ok then
      print (newline +:+ "⚠ Cannot launch LOOK-DGC due to missing dependencies.");;
      choice ← input (newline +:+ "Would you like to try launching anyway? (y/N): ");
      let choice := str_lower host (str_strip host choice) in
      if bool_decide (choice ≠ "y") then
        print "Launch aborted. Please install the missing dependencies.";;
        input "Press Enter to exit...";;
        mret tt
      else
        print "⚠ Proceeding with launch despite missing dependencies...";;
        print "Some features may not work correctly.";;
        launch host gui_dir
    else launch host gui_dir.

End Launch.

(** ** [tests/run_tests.py] *)

Module RunTests.

(** How [subprocess.run(cmd, shell=True, capture_output=True, text=True,
    check=True)] ends: with exit status zero, or with
    [CalledProcessError]. *)
Inductive ProcessResult : Type :=
| Completed (stdout stderr : string)
| CalledProcessError (returncode : Z) (stdout stderr : string).

(** The machine the runner runs on.  The commands of one run are pairwise
    different, so one outcome per command line describes any run. *)
Record Host : Type := mk_Host {
  subprocess_run : string → option string → ProcessResult;  (* cmd, cwd *)
  project_root   : string      (* the directory above the script's *)
}.

(** One write to a standard stream. *)
Inductive Emit : Type :=
| ToStdout (s : string)
| ToStderr (s : string).

Record State : Type := mk_State {
  console  : list Emit;                      (* writes, oldest first *)
  executed : list (string * option string);  (* commands run, with their cwd *)
  cwd      : option string                   (* Some d after os.chdir(d) *)
}.

Definition T (A : Type) : Type := State → A * State.

Global Instance T_ret : MRet T := λ A a st, (a, st).
Global Instance T_bind : MBind T := λ A B k m st,
  let '(a, st') := m st in k a st'.

Definition print (s : string) : T unit := λ st,
  (tt, mk_State (console st ++ [ToStdout s]) (executed st) (cwd st)).

Definition print_stderr (s : string) : T unit := λ st,
  (tt, mk_State (console st ++ [ToStderr s]) (executed st) (cwd st)).

Definition chdir (d : string) : T unit := λ st,
  (tt, mk_State (console st) (executed st) (Some d)).

Definition when (b : bool) (m : T unit) : T unit := if b then m else mret tt.

(** A string is true when it is not empty. *)
Definition truthy (s : string) : bool := negb (bool_decide (s = EmptyString)).

Section Runner.
Variable host : Host.

Definition run_command (cmd : string) (cwd : option string) : T bool :=
  r ← (λ st, (subprocess_run host cmd cwd,
              mk_State (console st) (executed st ++ [(cmd, cwd)]) (RunTests.cwd st)));
  match r with
  | Completed out err =>
      print out;;
      when (truthy err) (print_stderr err);;
      mret true
  | CalledProcessError returncode out err =>
      print ("Error running command: " +:+ cmd);;
      print ("Return code: " +:+ pretty returncode);;
      when (truthy out) (print ("stdout: " +:+ out));;
      when (truthy err) (print ("stderr: " +:+ err));;
      mret false
  end.

Definition install_test_deps : T bool :=
  print "Installing test dependencies...";;
  run_command "pip install -r test_requirements.txt" (Some "tests").

(** The command line [run_unit_tests] builds in [cmd]. *)
Definition unit_command (verbose coverage : bool) : string :=
  let cmd := "python -m pytest unit/" in
  let cmd := if verbose then cmd +:+ " -v" else cmd in
  let cmd := if coverage
             then cmd +:+ " --cov=../gui --cov-report=html --cov-report=term" else cmd in
  cmd.

Definition run_unit_tests (verbose coverage : bool) : T bool :=
  print "Running unit tests...";;
  run_command (unit_command verbose coverage) (Some "tests").

(** The command line [run_integration_tests] builds in [cmd]. *)
Definition integration_command (verbose : bool) : string :=
  let cmd := "python -m pytest integration/" in
  let cmd := if verbose then cmd +:+ " -v" else cmd in
  cmd.

Definition run_integration_tests (verbose : bool) : T bool :=
  print "Running integration tests...";;
  run_command (integration_command verbose) (Some "tests").

(** The command line [run_all_tests] builds in [cmd]. *)
Definition all_command (verbose coverage : bool) : string :=
  let cmd := "python -m pytest" in
  let cmd := if verbose then cmd +:+ " -v" else cmd in
  let cmd := if coverage
             then cmd +:+ " --cov=../gui --cov-report=html --cov-report=term" else cmd in
  cmd.

Definition run_all_tests (verbose coverage : bool) : T bool :=
  print "Running all tests...";;
  run_command (all_command verbose coverage) (Some "tests").

(** The command ends with exit status zero. *)
Definition exits_zero (cmd : string) (cwd : option string) : bool :=
  match subprocess_run host cmd cwd with
  | Completed _ _ => true
  | CalledProcessError _ _ _ => false
  end.

(** The parsed command line. *)
Record Args : Type := mk_Args {
  install     : bool;
  unit        : bool;
  integration : bool;
  all         : bool;
  verbose     : bool;
  coverage    : bool;
  setup       : bool
}.

(** How [main] ends: by returning, or by [sys.exit(code)]. *)
Inductive Exit : Type :=
| Return
| SysExit (code : Z).

(** [main] from [if args.setup:] on, with the values of [args.all] and
    [success] reached so far. *)
Definition run_selected (args : Args) (all success : bool) : T Exit :=
  let '(all, verbose, coverage) :=
    if setup args then (true, true, true) else (all, verbose args, coverage args) in
  success ←
    (if unit args
     then ok ← run_unit_tests verbose coverage; mret (if ok : bool then success else false)
     else mret success);
  success ←
    (if integration args
     then ok ← run_integration_tests verbose; mret (if ok : bool then success else false)
     else mret success);
  success ←
    (if all
     then ok ← run_all_tests verbose coverage; mret (if ok : bool then success else false)
     else mret success);
  if success : bool then
    print (ValidateDeps.newline +:+ "‚úÖ All tests passed!");;
    when coverage (print "üìä Coverage report available in tests/htmlcov/");;
    mret Return
  else
    print (ValidateDeps.newline +:+ "‚ùå Some tests failed!");;
    mret (SysExit 1).

(** [main], after [parse_args]. *)
Definition main (args : Args) : T Exit :=
  chdir (project_root host);;
  let all :=
    if negb (unit args || integration args || all args) then true else all args in
  if install args || setup args then
    ok ← install_test_deps;
    if negb ok then
      if negb (setup args) then mret Return
      else run_selected args all false
    else run_selected args all true
  else run_selected args all true.

End Runner.
End RunTests.

(** ** The widget from its creation on *)

Module WidgetSession.
Import MultipleCompression.

(** [MultipleCompressionWidget.__init__] on the array at [image] of the
    store [heap]: the label is empty, the figure has no axes, the heat map
    label has no pixmap, and the message is emitted. *)
Definition init (heap : list ndarray) (image : loc) : World :=
  mk_World heap image EmptyString [] 0 None
           ["Detects multiple JPEG compressions"] [].

(** The two buttons. *)
Inductive Button : Type :=
| ShowGraph
| ShowHeatmap.

Global Instance Button_eq_dec : EqDecision Button.
Proof. solve_decision. Defined.

(** How often [b] occurs in [bs]. *)
Definition presses (b : Button) (bs : list Button) : nat :=
  length (filter (λ b', b' = b) bs).

(** A codec call made on behalf of the image [img]: an encoding of [img]
    itself at one of the eleven levels of the widget, or a decoding with the
    flag 1. *)
Definition call_of (img : ndarray) (c : CodecCall) : Prop :=
  match c with
  | CallImencode a q => a = img ∧ q ∈ 70 :: qualities
  | CallImdecode _ flags => flags = 1
  end.

Section Session.
Context `{cv : Native}.

(** The slot connected to the button's [clicked] signal. *)
Definition clicked (b : Button) : M unit :=
  match b with
  | ShowGraph => run_graph
  | ShowHeatmap => run_heatmap
  end.

(** The world after the buttons [bs] have been pressed in turn; a slot that
    raises leaves the world as it was when it raised. *)
Fixpoint session (bs : list Button) (w : World) : World :=
  match bs with
  | [] => w
  | b :: bs' => session bs' (clicked b w).2
  end.

End Session.

(** What is on display is consistent: no plot yet, or one plot whose
    abscissae are the ten levels and whose samples are those the label
    reports. *)
Definition display_consistent `{cv : Native} (w : World) : Prop :=
  figure w = []
  ∨ ∃ diffs, figure w = [curve_axes diffs]
             ∧ result_label w = "Recompression diffs: " +:+ str_samples diffs
             ∧ map fst diffs = qualities.

End WidgetSession.

(** ** More concrete inputs *)

Module MoreFixtures.
Import MultipleCompression ValidateDeps Fixtures.

(** A codec for single-channel arrays whose decoder, asked for colour,
    returns three equal channels. *)
Definition gray_codec : Native := {|
  imencode := λ img q,
    match shape img with
    | [h; w] =>
        let payload := Z.of_nat h :: Z.of_nat w :: data img in
        Ok (true, mk_ndarray [length payload] payload)
    | _ => Raise (cv2_error (-215))
    end;
  imdecode := λ buf flags,
    match data buf with
    | h :: w :: body =>
        Ok (Some (mk_ndarray [Z.to_nat h; Z.to_nat w; 3%nat]
                             (flat_map (λ x, [x; x; x]) body)))
    | _ => Ok None
    end;
  applyColorMap := λ src _, Ok src;
  str_samples := toy_str_samples
|}.

(** A codec whose decoder never manages to decode. *)
Definition mute_codec : Native := {|
  imencode := toy_imencode;
  imdecode := λ _ _, Ok None;
  applyColorMap := λ src _, Ok src;
  str_samples := toy_str_samples
|}.

(** A widget on the single-channel image [gray0]. *)
Definition w_gray : World := mk_World [gray0] 0%nat EmptyString [] 0 None [] [].

(** A single-channel image of one row and three columns, and a widget on it. *)
Definition gray_row : ndarray := mk_ndarray [1; 3]%nat [9; 8; 7].

Definition w_gray_row : World :=
  mk_World [gray_row] 0%nat EmptyString [] 0 None [] [].

(** An interpreter in which every module imports. *)
Definition env_all : PyEnv := mk_PyEnv (λ _, None) "2.15.0".

(** A machine for the launcher: the script lies in [/opt/look], the [gui]
    directory exists when [gui] holds, the validator is not there, and the
    application ends as [outcome] says. *)
Definition launch_host (env : PyEnv) (gui : bool) (outcome : Launch.ProcessResult)
  : Launch.Host :=
  Launch.mk_Host env true "/opt/look" (λ a b, a +:+ "/" +:+ b)
    (λ path, if decide (path = "/opt/look/gui") then gui else false)
    "/usr/bin/python3" (λ _ _, outcome)
    (λ s, s) (λ s, if decide (s = "Y") then "y" else s).

(** A console with [lines] waiting on standard input. *)
Definition console_with (lines : list string) : Launch.Console :=
  Launch.mk_Console [] lines None [].

(** A machine for the test runner on which the installation fails and every
    test command succeeds. *)
Definition runner_host : RunTests.Host :=
  RunTests.mk_Host
    (λ cmd _, if decide (cmd = "pip install -r test_requirements.txt")
              then RunTests.CalledProcessError 1 EmptyString "no network"
              else RunTests.Completed "2 passed" EmptyString)
    "/opt/look".

Definition runner_start : RunTests.State := RunTests.mk_State [] [] None.

End MoreFixtures.

(** * Theorems *)

Section WidgetFacts.
Import MultipleCompression.
Context `{cv : Native}.

Lemma deref_lookup w l a : heap w !! l = Some a → deref w l = a.
Proof. intros Hl. unfold deref. by apply list_lookup_total_correct. Qed.

Lemma same_display_refl w : same_display w w.
Proof. by repeat split. Qed.

Lemma same_display_trans w1 w2 w3 :
  same_display w1 w2 → same_display w2 w3 → same_display w1 w3.
Proof. intros (?&?&?&?&?) (?&?&?&?&?). repeat split; congruence. Qed.

Ltac run_monad :=
  unfold cv2_imencode, cv2_imdecode, cv2_absdiff, cv2_applyColorMap, np_mean,
    load, log_call, lift, alloc, self_image, gets, modify, raise;
  unfold mbind, M_bind, mret, M_ret; simpl.

(** Reading the store after some allocations: the newest object is the one
    just allocated, the older ones are where they were. *)
Ltac solve_lookup Himg :=
  repeat first
    [ exact Himg
    | apply list_lookup_middle; rewrite ?length_app; simpl; lia
    | apply lookup_app_l_Some ].

Ltac store_simpl Himg :=
  unfold deref; simpl;
  repeat (erewrite list_lookup_total_correct by solve_lookup Himg);
  simpl.

Ltac frame_done :=
  eexists; split; [reflexivity |];
  repeat split; simpl; auto;
    try (rewrite <- ?(assoc_L (++)); by eexists);
    try (by rewrite <- ?(assoc_L (++))).

Lemma graph_step_run w img q diffs :
  heap w !! image w = Some img →
  ∃ w', graph_step q diffs w =
          (match sample img q with Ok s => Ok (diffs ++ [s]) | Raise e => Raise e end, w')
        ∧ image w' = image w
        ∧ heap w `prefix_of` heap w'
        ∧ same_display w w'
        ∧ codec_calls w' = codec_calls w ++ calls img q.
Proof.
  intros Himg.
  unfold graph_step, sample, difference, calls. run_monad.
  store_simpl Himg.
  destruct (imencode img q) as [[retval buf]|e]; simpl.
  2: frame_done.
  store_simpl Himg.
  destruct (imdecode buf 1) as [[dec|]|e]; simpl.
  3: frame_done.
  - store_simpl Himg.
    destruct (absdiff img dec) as [d|e]; simpl.
    2: frame_done.
    store_simpl Himg. frame_done.
  - store_simpl Himg.
    destruct (absdiff_none img) as [d|e]; simpl.
    2: frame_done.
    store_simpl Himg. frame_done.
Qed.

(** The loop of [run_graph] from any point on: it computes [sweep] and makes
    the calls [sweep_calls], whatever else the world holds. *)
Lemma for_in_graph_step_run qs : ∀ w img diffs,
  heap w !! image w = Some img →
  ∃ w', for_in qs graph_step diffs w = (sweep img qs diffs, w')
        ∧ image w' = image w
        ∧ heap w `prefix_of` heap w'
        ∧ same_display w w'
        ∧ codec_calls w' = codec_calls w ++ sweep_calls img qs.
Proof.
  induction qs as [|q qs IH]; intros w img diffs Himg; simpl.
  - exists w. rewrite app_nil_r. repeat split; auto.
  - destruct (graph_step_run w img q diffs Himg)
      as (w1 & Hrun & Him & Hpre & Hdisp & Hcalls).
    unfold mbind, M_bind. rewrite Hrun.
    destruct (sample img q) as [s|e].
    + assert (Himg1 : heap w1 !! image w1 = Some img).
      { rewrite Him. by eapply prefix_lookup_Some. }
      destruct (IH w1 img (diffs ++ [s]) Himg1)
        as (w2 & Hrun2 & Him2 & Hpre2 & Hdisp2 & Hcalls2).
      exists w2. split; [done |].
      split; [congruence |].
      split; [by etrans |].
      split; [by eapply same_display_trans |].
      rewrite Hcalls2, Hcalls. symmetry.
      exact (app_assoc (codec_calls w) (calls img q) (sweep_calls img qs)).
    + exists w1. rewrite app_nil_r. repeat split; solve [done | apply Hdisp | exact Hcalls].
Qed.

(** *** The sweep as a function of the pixels *)

Lemma sweep_app img qs : ∀ diffs diffs',
  sweep img qs diffs = Ok diffs' →
  ∃ new, diffs' = diffs ++ new ∧ map fst new = qs
         ∧ Forall2 (λ q s, sample img q = Ok s) qs new.
Proof.
  induction qs as [|q qs IH]; intros diffs diffs'; simpl.
  - intros [= <-]. exists []. by rewrite app_nil_r.
  - destruct (sample img q) as [s|e] eqn:Hs; [|done].
    intros (new & -> & Hkeys & Hall)%IH.
    exists (s :: new). rewrite <- app_assoc. split; [done |].
    assert (s.1 = q) as Hq.
    { unfold sample in Hs. destruct (difference img q); by simplify_eq. }
    split; [simpl; congruence | by constructor].
Qed.

Lemma sweep_ok img (f : Z → float) qs : ∀ diffs,
  Forall (λ q, sample img q = Ok (q, f q)) qs →
  sweep img qs diffs = Ok (diffs ++ map (λ q, (q, f q)) qs).
Proof.
  induction qs as [|q qs IH]; intros diffs Hall; simpl.
  - by rewrite app_nil_r.
  - inversion_clear Hall as [|?? Hq Hqs]. rewrite Hq.
    rewrite (IH _ Hqs), <- app_assoc. done.
Qed.

Lemma sweep_raise img qs1 q qs2 e : ∀ diffs,
  Forall (λ q', ∃ s, sample img q' = Ok s) qs1 →
  sample img q = Raise e →
  sweep img (qs1 ++ q :: qs2) diffs = Raise e
  ∧ sweep_calls img (qs1 ++ q :: qs2) = flat_map (calls img) (qs1 ++ [q]).
Proof.
  induction qs1 as [|q1 qs1 IH]; intros diffs Hall Hq; simpl.
  - rewrite Hq. by rewrite !app_nil_r.
  - inversion_clear Hall as [|?? [s Hs] Hrest]. rewrite Hs.
    destruct (IH (diffs ++ [s]) Hrest Hq) as [-> ->]. done.
Qed.

(** Every level asked of the encoder by a sweep is one of its levels. *)
Lemma sweep_calls_levels img qs :
  Forall (λ c, match c with CallImencode _ q => q ∈ qs | CallImdecode _ _ => True end)
         (sweep_calls img qs).
Proof.
  induction qs as [|q qs IH]; simpl; [constructor |].
  constructor; [by left |].
  apply Forall_app. split.
  - destruct (imencode img q) as [[? ?]|?]; repeat constructor.
  - destruct (sample img q); [|constructor].
    eapply Forall_impl; [exact IH |].
    intros [? q'|? ?]; [by right | done].
Qed.

Lemma sample_round_trip img q retval buf dec :
  imencode img q = Ok (retval, buf) →
  imdecode buf 1 = Ok (Some dec) →
  shape dec = shape img →
  difference img q = Ok (mk_ndarray (shape img)
                           (zip_with (λ x y, Z.abs (x - y)) (data img) (data dec)))
  ∧ sample img q = Ok (q, mean_abs_diff img dec).
Proof.
  intros Henc Hdec Hshape. unfold sample, difference, absdiff.
  rewrite Henc, Hdec. by rewrite decide_True.
Qed.

(** *** The stateful code *)

Lemma recompression_curve_run w img :
  heap w !! image w = Some img →
  ∃ w', recompression_curve w = (sweep img qualities [], w')
        ∧ image w' = image w
        ∧ heap w `prefix_of` heap w'
        ∧ same_display w w'
        ∧ codec_calls w' = codec_calls w ++ sweep_calls img qualities.
Proof. apply for_in_graph_step_run. Qed.

(** What [show_curve] leaves behind for a non-empty curve. *)
Lemma show_curve_run w diffs :
  diffs ≠ [] →
  let msg := "Recompression diffs: " +:+ str_samples diffs in
  show_curve diffs w =
    (Ok tt, mk_World (heap w) (image w) msg [curve_axes diffs]
                     (S (canvas_draws w)) (heatmap_label w)
                     (info_messages w ++ [msg]) (codec_calls w)).
Proof. destruct diffs; [done | reflexivity]. Qed.

Lemma run_graph_run w img :
  heap w !! image w = Some img →
  let w' := (run_graph w).2 in
  image w' = image w
  ∧ heap w `prefix_of` heap w'
  ∧ codec_calls w' = codec_calls w ++ sweep_calls img qualities
  ∧ heatmap_label w' = heatmap_label w
  ∧ match sweep img qualities [] with
    | Ok diffs =>
        let msg := "Recompression diffs: " +:+ str_samples diffs in
        (run_graph w).1 = Ok tt
        ∧ result_label w' = msg
        ∧ figure w' = [curve_axes diffs]
        ∧ canvas_draws w' = S (canvas_draws w)
        ∧ info_messages w' = info_messages w ++ [msg]
    | Raise e => (run_graph w).1 = Raise e ∧ same_display w w'
    end.
Proof.
  intros Himg.
  destruct (recompression_curve_run w img Himg)
    as (w1 & Hrun & Him & Hpre & (Hl & Hf & Hc & Hh & Hm) & Hcalls).
  unfold run_graph, mbind, M_bind. rewrite Hrun.
  destruct (sweep img qualities []) as [diffs|e] eqn:Hsweep.
  - apply sweep_app in Hsweep as (new & -> & Hkeys & _).
    assert (new ≠ []) as Hne by (intros ->; discriminate Hkeys).
    rewrite show_curve_run by done.
    cbn [fst snd heap image result_label figure canvas_draws heatmap_label
         info_messages codec_calls].
    repeat split; try done; congruence.
  - cbn [fst snd]. repeat split; done.
Qed.

Lemma heatmap_difference_run w img :
  heap w !! image w = Some img →
  let w' := (heatmap_difference w).2 in
  image w' = image w
  ∧ heap w `prefix_of` heap w'
  ∧ same_display w w'
  ∧ codec_calls w' = codec_calls w ++ calls img 70
  ∧ match difference img 70 with
    | Ok d => ∃ l, (heatmap_difference w).1 = Ok l ∧ heap w' !! l = Some d
    | Raise e => (heatmap_difference w).1 = Raise e
    end.
Proof.
  intros Himg.
  unfold heatmap_difference, difference, calls. run_monad.
  store_simpl Himg.
  destruct (imencode img 70) as [[retval buf]|e]; simpl.
  { store_simpl Himg.
    destruct (imdecode buf 1) as [[dec|]|e]; simpl.
    { store_simpl Himg.
      destruct (absdiff img dec) as [d|e]; simpl.
      - repeat split; try done.
        + rewrite <- !app_assoc. by eexists.
        + by rewrite <- app_assoc.
        + eexists. split; [reflexivity |].
          apply list_lookup_middle. by rewrite !length_app.
      - repeat split; try done.
        + rewrite <- app_assoc. by eexists.
        + by rewrite <- app_assoc. }
    { store_simpl Himg.
      destruct (absdiff_none img) as [d|e]; simpl.
      - repeat split; try done.
        + rewrite <- ?app_assoc. by eexists.
        + by rewrite <- ?app_assoc.
        + eexists. split; [reflexivity |].
          apply list_lookup_middle. by rewrite !length_app.
      - repeat split; try done.
        + by eexists.
        + by rewrite <- ?app_assoc. }
    repeat split; try done; first [by eexists | by rewrite <- app_assoc]. }
  repeat split; done.
Qed.

(** [show_heatmap] makes no codec call, allocates only, and touches nothing
    on display but the pixmap. *)
Lemma show_heatmap_run w l d :
  heap w !! l = Some d →
  let w' := (show_heatmap l w).2 in
  image w' = image w
  ∧ heap w `prefix_of` heap w'
  ∧ codec_calls w' = codec_calls w
  ∧ result_label w' = result_label w ∧ figure w' = figure w
  ∧ canvas_draws w' = canvas_draws w
  ∧ info_messages w' = info_messages w
  ∧ match applyColorMap d COLORMAP_JET with
    | Ok hm =>
        match shape hm with
        | [h; wd; ch] =>
            (show_heatmap l w).1 = Ok tt
            ∧ heatmap_label w' = Some (mk_QPixmap wd h (ch * wd) (data hm))
        | _ =>
            (show_heatmap l w).1 = Raise ValueError
            ∧ heatmap_label w' = heatmap_label w
        end
    | Raise e =>
        (show_heatmap l w).1 = Raise e ∧ heatmap_label w' = heatmap_label w
    end.
Proof.
  intros Hl. unfold show_heatmap, unpack_shape3, heatmap_label_setPixmap.
  run_monad. store_simpl Hl.
  destruct (applyColorMap d COLORMAP_JET) as [hm|e]; simpl.
  2:{ repeat split; done. }
  store_simpl Hl.
  destruct (shape hm) as [|h [|wd [|ch [|? ?]]]]; simpl;
    repeat split; try done; by eexists.
Qed.

(** [run_heatmap] as a whole. *)
Lemma run_heatmap_run w img :
  heap w !! image w = Some img →
  let w' := (run_heatmap w).2 in
  image w' = image w
  ∧ heap w `prefix_of` heap w'
  ∧ codec_calls w' = codec_calls w ++ calls img 70
  ∧ result_label w' = result_label w ∧ figure w' = figure w
  ∧ canvas_draws w' = canvas_draws w
  ∧ info_messages w' = info_messages w
  ∧ match difference img 70 with
    | Ok d =>
        match applyColorMap d COLORMAP_JET with
        | Ok hm =>
            match shape hm with
            | [h; wd; ch] =>
                (run_heatmap w).1 = Ok tt
                ∧ heatmap_label w' = Some (mk_QPixmap wd h (ch * wd) (data hm))
            | _ =>
                (run_heatmap w).1 = Raise ValueError
                ∧ heatmap_label w' = heatmap_label w
            end
        | Raise e =>
            (run_heatmap w).1 = Raise e ∧ heatmap_label w' = heatmap_label w
        end
    | Raise e =>
        (run_heatmap w).1 = Raise e ∧ heatmap_label w' = heatmap_label w
    end.
Proof.
  intros Himg.
  pose proof (heatmap_difference_run w img Himg) as Hd. cbv zeta in Hd.
  destruct Hd as (Him & Hpre & (Hl & Hf & Hc & Hh & Hm) & Hcalls & Hres).
  unfold run_heatmap, mbind, M_bind.
  destruct (heatmap_difference w) as [[l|e'] w1] eqn:Hrun; cbn [fst snd] in *.
  - destruct (difference img 70) as [d|e]; [|done].
    destruct Hres as (l' & [= <-] & Hld).
    pose proof (show_heatmap_run w1 l d Hld) as Hs. cbv zeta in Hs.
    destruct Hs as (Him2 & Hpre2 & Hcalls2 & Hl2 & Hf2 & Hc2 & Hm2 & Hres2).
    destruct (show_heatmap l w1) as [o w2]; cbn [fst snd] in *.
    repeat split; try congruence.
    + by trans (heap w1).
    + rewrite Hh in Hres2. exact Hres2.
  - destruct (difference img 70) as [d|e]; [by destruct Hres as (? & [=] & ?) |].
    repeat split; congruence.
Qed.

(** The array behind [self.image] is still there after any run that only
    allocates. *)
Lemma image_kept w w' img :
  heap w !! image w = Some img →
  image w' = image w → heap w `prefix_of` heap w' →
  heap w' !! image w' = Some img.
Proof. intros Himg -> Hpre. by eapply prefix_lookup_Some. Qed.

(** *** The recompression curve *)

(** C1.  For every image on which the ten round trips succeed and give back
    an image of the same shape, the sweep of [run_graph] yields one sample
    per level of [95, 90, ..., 50], in that order; the sample of level [q] is
    the pair of [q] and the mean absolute difference between the image and
    its encode/decode round trip at [q]; and that curve is what [run_graph]
    plots and announces. *)
Theorem run_graph_recompression_curve w img (dec : Z → ndarray) :
  heap w !! image w = Some img →
  Forall (λ q, ∃ retval buf,
            imencode img q = Ok (retval, buf)
            ∧ imdecode buf 1 = Ok (Some (dec q))
            ∧ shape (dec q) = shape img) qualities →
  let curve := map (λ q, (q, mean_abs_diff img (dec q))) qualities in
  (recompression_curve w).1 = Ok curve
  ∧ (run_graph w).1 = Ok tt
  ∧ figure (run_graph w).2 = [curve_axes curve]
  ∧ info_messages (run_graph w).2 =
      info_messages w ++ ["Recompression diffs: " +:+ str_samples curve]
  ∧ map fst curve = [95; 90; 85; 80; 75; 70; 65; 60; 55; 50].
Proof.
  intros Himg Hrt curve.
  assert (sweep img qualities [] = Ok curve) as Hsweep.
  { apply (sweep_ok img (λ q, mean_abs_diff img (dec q)) qualities []).
    eapply Forall_impl; [exact Hrt |].
    intros q (retval & buf & Henc & Hdec & Hshape).
    by apply (sample_round_trip img q retval buf (dec q)). }
  destruct (recompression_curve_run w img Himg) as (w1 & Hrun & _).
  pose proof (run_graph_run w img Himg) as Hg. cbv zeta in Hg.
  rewrite Hsweep in Hg.
  destruct Hg as (_ & _ & _ & _ & Hok & _ & Hfig & _ & Hmsg).
  rewrite Hrun. repeat split; done.
Qed.

(** C9.  [run_graph] has no parameter.  Whenever its sweep returns, the
    curve has exactly ten samples whose keys are 95, 90, ..., 50 in that
    order; and it does return, and is plotted, as soon as the ten round
    trips succeed. *)
Theorem run_graph_ten_fixed_qualities w img :
  heap w !! image w = Some img →
  (∀ diffs, (recompression_curve w).1 = Ok diffs →
     length diffs = 10%nat
     ∧ map fst diffs = [95; 90; 85; 80; 75; 70; 65; 60; 55; 50])
  ∧ (Forall (λ q, ∃ d, difference img q = Ok d) qualities →
     ∃ diffs, (recompression_curve w).1 = Ok diffs
              ∧ length diffs = 10%nat
              ∧ map fst diffs = [95; 90; 85; 80; 75; 70; 65; 60; 55; 50]
              ∧ (run_graph w).1 = Ok tt
              ∧ figure (run_graph w).2 = [curve_axes diffs]).
Proof.
  intros Himg.
  destruct (recompression_curve_run w img Himg) as (w1 & Hrun & _).
  assert (∀ diffs, sweep img qualities [] = Ok diffs →
            length diffs = 10%nat ∧ map fst diffs = qualities) as Hkeys.
  { intros diffs (new & -> & Hk & _)%sweep_app. simpl.
    split; [|done]. by rewrite <- (length_map fst), Hk. }
  split.
  - intros diffs. rewrite Hrun. apply Hkeys.
  - intros Hall.
    assert (∃ diffs, sweep img qualities [] = Ok diffs) as [diffs Hsweep].
    { destruct (sweep img qualities []) as [diffs|e] eqn:Hs; [by eexists |].
      exfalso. revert Hall Hs. generalize (@nil (Z * float)).
      induction qualities as [|q qs IH]; intros acc Hall; simpl; [done |].
      inversion_clear Hall as [|?? [d Hd] Hrest].
      unfold sample. rewrite Hd. by apply IH. }
    pose proof (run_graph_run w img Himg) as Hg. cbv zeta in Hg.
    rewrite Hsweep in Hg.
    destruct Hg as (_ & _ & _ & _ & Hok & _ & Hfig & _).
    exists diffs. rewrite Hrun.
    destruct (Hkeys diffs Hsweep) as [Hlen Hk]. done.
Qed.

(** C2.  The curve is a function of the pixels of the image alone: two runs
    on worlds that hold the same image, whatever else they hold, give the
    same samples (or the same exception) and, when they complete, the same
    plot and label; a second run in the world the first one left behind
    reproduces the first. *)
Theorem run_graph_deterministic w w' img :
  heap w !! image w = Some img →
  heap w' !! image w' = Some img →
  (recompression_curve w).1 = (recompression_curve w').1
  ∧ (run_graph w).1 = (run_graph w').1
  ∧ ((run_graph w).1 = Ok tt →
       figure (run_graph w).2 = figure (run_graph w').2
       ∧ result_label (run_graph w).2 = result_label (run_graph w').2)
  ∧ (recompression_curve (run_graph w).2).1 = (recompression_curve w).1
  ∧ (run_graph (run_graph w).2).1 = (run_graph w).1.
Proof.
  intros Himg Himg'.
  assert (∀ u v, heap u !! image u = Some img → heap v !! image v = Some img →
            (recompression_curve u).1 = (recompression_curve v).1
            ∧ (run_graph u).1 = (run_graph v).1
            ∧ ((run_graph u).1 = Ok tt →
                 figure (run_graph u).2 = figure (run_graph v).2
                 ∧ result_label (run_graph u).2 = result_label (run_graph v).2))
    as Hsame.
  { intros u v Hu Hv.
    destruct (recompression_curve_run u img Hu) as (u1 & -> & _).
    destruct (recompression_curve_run v img Hv) as (v1 & -> & _).
    pose proof (run_graph_run u img Hu) as Gu.
    pose proof (run_graph_run v img Hv) as Gv. cbv zeta in Gu, Gv.
    destruct Gu as (_ & _ & _ & _ & Gu), Gv as (_ & _ & _ & _ & Gv).
    destruct (sweep img qualities []) as [diffs|e].
    - destruct Gu as (-> & -> & -> & _), Gv as (-> & -> & -> & _). done.
    - destruct Gu as (-> & _), Gv as (-> & _). done. }
  destruct (Hsame w w' Himg Himg') as (Hc & Hr & Hd).
  pose proof (run_graph_run w img Himg) as Hg. cbv zeta in Hg.
  destruct Hg as (Him & Hpre & _).
  pose proof (image_kept w _ img Himg Him Hpre) as Himg2.
  destruct (Hsame (run_graph w).2 w Himg2 Himg) as (Hc2 & Hr2 & _).
  done.
Qed.

(** *** The heat map *)

(** C3.  When the round trip at level 70 succeeds and gives back an image of
    the same shape, [run_heatmap] calls the encoder once, at level 70, and
    the decoder once, on what the encoder returned; its difference image has
    the shape of the input and holds, element by element, the absolute
    difference between the input and the decoded image; and the pixmap it
    shows is the colour map of that difference image. *)
Theorem run_heatmap_difference_map w img retval buf dec :
  heap w !! image w = Some img →
  imencode img 70 = Ok (retval, buf) →
  imdecode buf 1 = Ok (Some dec) →
  shape dec = shape img →
  ∃ l diff,
    (heatmap_difference w).1 = Ok l
    ∧ heap (heatmap_difference w).2 !! l = Some diff
    ∧ shape diff = shape img
    ∧ length (data diff) = (length (data img) `min` length (data dec))%nat
    ∧ (∀ i x y, data img !! i = Some x → data dec !! i = Some y →
                data diff !! i = Some (Z.abs (x - y)))
    ∧ codec_calls (run_heatmap w).2
      = codec_calls w ++ [CallImencode img 70; CallImdecode buf 1]
    ∧ (∀ hm h wd ch,
         applyColorMap diff COLORMAP_JET = Ok hm → shape hm = [h; wd; ch] →
         (run_heatmap w).1 = Ok tt
         ∧ heatmap_label (run_heatmap w).2
           = Some (mk_QPixmap wd h (ch * wd) (data hm))).
Proof.
  intros Himg Henc Hdec Hshape.
  destruct (sample_round_trip img 70 retval buf dec Henc Hdec Hshape) as [Hdiff _].
  pose proof (heatmap_difference_run w img Himg) as Hd.
  pose proof (run_heatmap_run w img Himg) as Hr. cbv zeta in Hd, Hr.
  rewrite Hdiff in Hd, Hr.
  destruct Hd as (_ & _ & _ & _ & l & Hl & Hheap).
  destruct Hr as (_ & _ & Hcalls & _ & _ & _ & _ & Hres).
  eexists l, _. split; [exact Hl |]. split; [exact Hheap |].
  split; [done |]. split; [apply length_zip_with |].
  split.
  { intros i x y Hx Hy. simpl. rewrite lookup_zip_with, Hx. simpl. by rewrite Hy. }
  split.
  { rewrite Hcalls. unfold calls. by rewrite Henc. }
  intros hm h wd ch Hcm Hsh. rewrite Hcm, Hsh in Hres. exact Hres.
Qed.

(** *** Frame *)

(** C4.  Neither method changes [self.image]: after [run_graph] and after
    [run_heatmap], whether they return or raise, the attribute refers to the
    same object, the object holds the same array, and so does every other
    array that existed before the call (the store has only grown). *)
Theorem analyzers_preserve_image w img :
  heap w !! image w = Some img →
  (image (run_graph w).2 = image w
   ∧ heap (run_graph w).2 !! image (run_graph w).2 = Some img
   ∧ image_of (run_graph w).2 = image_of w
   ∧ heap w `prefix_of` heap (run_graph w).2)
  ∧ (image (run_heatmap w).2 = image w
     ∧ heap (run_heatmap w).2 !! image (run_heatmap w).2 = Some img
     ∧ image_of (run_heatmap w).2 = image_of w
     ∧ heap w `prefix_of` heap (run_heatmap w).2).
Proof.
  intros Himg.
  pose proof (run_graph_run w img Himg) as Hg.
  pose proof (run_heatmap_run w img Himg) as Hh. cbv zeta in Hg, Hh.
  destruct Hg as (Hi1 & Hp1 & _), Hh as (Hi2 & Hp2 & _).
  pose proof (image_kept w _ img Himg Hi1 Hp1) as K1.
  pose proof (image_kept w _ img Himg Hi2 Hp2) as K2.
  unfold image_of.
  rewrite (deref_lookup _ _ _ K1), (deref_lookup _ _ _ K2), (deref_lookup _ _ _ Himg).
  done.
Qed.

(** The result of [absdiff] on 8-bit data is 8-bit data: no saturation is
    ever needed. *)
Lemma absdiff_uint8 a b d :
  uint8 a → uint8 b → absdiff a b = Ok d → uint8 d.
Proof.
  unfold uint8, absdiff. intros Ha Hb.
  assert (Forall (λ x, 0 ≤ x < 256)
                 (zip_with (λ x y, Z.abs (x - y)) (data a) (data b))) as Hd.
  { revert Hb. generalize (data b).
    induction Ha as [|x xs Hx Hxs IH]; intros [|y ys] Hys; simpl; try constructor.
    - inversion_clear Hys as [|?? Hy _]. lia.
    - inversion_clear Hys. by apply IH. }
  destruct (decide (shape a = shape b)); [by intros [= <-] |].
  destruct (mat_of a) as [m1|], (mat_of b) as [m2|]; try done.
  destruct (decide (m1 = m2)); [by intros [= <-] | done].
Qed.

(** *** Failures *)

Lemma difference_encode_raises img q e :
  imencode img q = Raise e → difference img q = Raise e.
Proof. unfold difference. by intros ->. Qed.

Lemma difference_decode_raises img q retval buf e :
  imencode img q = Ok (retval, buf) → imdecode buf 1 = Raise e →
  difference img q = Raise e.
Proof. unfold difference. by intros -> ->. Qed.

(** A buffer the decoder cannot decode comes back as [None], and it is
    [cv2.absdiff] that raises. *)
Lemma difference_decode_none img q retval buf :
  imencode img q = Ok (retval, buf) → imdecode buf 1 = Ok None →
  difference img q = absdiff_none img.
Proof. unfold difference. by intros -> ->. Qed.

(** Beside the empty matrix only a single pixel is taken for a scalar. *)
Lemma absdiff_none_status img (h wd : nat) rest :
  shape img = h :: wd :: rest → mat_of img ≠ None →
  absdiff_none img
  = Raise (cv2_error (if bool_decide (h = 1 ∧ wd = 1)%nat
                      then StsAssert else StsUnmatchedSizes)).
Proof.
  intros Hshape Hmat. unfold absdiff_none.
  destruct (mat_of img) as [m|] eqn:Hm; [|done].
  assert (rows m = h ∧ cols m = wd) as [Hr Hc].
  { unfold mat_of in Hm. rewrite Hshape in Hm.
    destruct rest as [|c [|]]; [| |done].
    - by injection Hm as <-.
    - case_bool_decide; [by injection Hm as <- | done]. }
  unfold arithm_op_rejects, checkScalar, empty_mat. cbn [rows cols channels].
  rewrite Hr, Hc.
  repeat case_bool_decide; cbn [orb]; try done; exfalso; lia.
Qed.

(** C5, as the code has it.  The analyzer checks no range itself: at any
    level, the outcome of the body of the sweep is the outcome of the round
    trip.  The two methods ask the encoder only for their own fixed levels,
    all within 1..100.  An exception of the round trip at some level is not
    retried: the failing call is the last codec call.  It propagates to the
    caller as it is, and nothing is put on display. *)
Theorem codec_failure_propagates w img :
  heap w !! image w = Some img →
  (∀ q diffs,
     (graph_step q diffs w).1
     = match sample img q with Ok s => Ok (diffs ++ [s]) | Raise e => Raise e end)
  ∧ (∃ cs, codec_calls (run_graph w).2 = codec_calls w ++ cs
           ∧ Forall (λ c, match c with
                          | CallImencode _ q => 1 ≤ q ≤ 100
                          | CallImdecode _ _ => True
                          end) cs)
  ∧ (∃ cs, codec_calls (run_heatmap w).2 = codec_calls w ++ cs
           ∧ Forall (λ c, match c with
                          | CallImencode _ q => q = 70
                          | CallImdecode _ _ => True
                          end) cs)
  ∧ (∀ qs1 q qs2 e,
       qualities = qs1 ++ q :: qs2 →
       Forall (λ q', ∃ d, difference img q' = Ok d) qs1 →
       difference img q = Raise e →
       (run_graph w).1 = Raise e
       ∧ same_display w (run_graph w).2
       ∧ codec_calls (run_graph w).2
         = codec_calls w ++ flat_map (calls img) (qs1 ++ [q]))
  ∧ (∀ e,
       difference img 70 = Raise e →
       (run_heatmap w).1 = Raise e
       ∧ same_display w (run_heatmap w).2
       ∧ codec_calls (run_heatmap w).2 = codec_calls w ++ calls img 70).
Proof.
  intros Himg.
  pose proof (run_graph_run w img Himg) as Hg.
  pose proof (run_heatmap_run w img Himg) as Hh. cbv zeta in Hg, Hh.
  destruct Hg as (_ & _ & Hcalls & Hhm & Hres).
  destruct Hh as (_ & _ & Hcalls' & Hl' & Hf' & Hc' & Hm' & Hres').
  split; [|split; [|split; [|split]]].
  - intros q diffs.
    destruct (graph_step_run w img q diffs Himg) as (w' & -> & _). done.
  - eexists. split; [exact Hcalls |].
    eapply Forall_impl; [apply sweep_calls_levels |].
    intros [a q|? ?]; [|done]. unfold qualities.
    rewrite !elem_of_cons, elem_of_nil. lia.
  - eexists. split; [exact Hcalls' |]. unfold calls.
    destruct (imencode img 70) as [[? ?]|?]; repeat constructor.
  - intros qs1 q qs2 e Hsplit Hok Hfail.
    assert (sample img q = Raise e) as Hs by (unfold sample; by rewrite Hfail).
    assert (Forall (λ q', ∃ s, sample img q' = Ok s) qs1) as Hok'.
    { eapply Forall_impl; [exact Hok |]. intros q' [d Hd].
      unfold sample. rewrite Hd. by eexists. }
    destruct (sweep_raise img qs1 q qs2 e [] Hok' Hs) as [Hsw Hsc].
    rewrite Hsplit in Hres, Hcalls. rewrite Hsw in Hres. rewrite Hsc in Hcalls.
    destruct Hres as [-> Hdisp]. done.
  - intros e Hfail. rewrite Hfail in Hres'. destruct Hres' as [-> Hhm'].
    repeat split; done.
Qed.

End WidgetFacts.

(** ** Histogram and loader *)

Section UtilityFacts.
Import Utility.

Lemma sumZ_map_add {A} (f g : A → Z) (l : list A) :
  sumZ (map (λ v, f v + g v) l) = sumZ (map f l) + sumZ (map g l).
Proof. induction l as [|a l IH]; simpl; [done | rewrite IH; lia]. Qed.

(** Over a list without duplicates, exactly one bin matches a value of the
    list. *)
Lemma sumZ_indicator (x : Z) (l : list Z) :
  NoDup l → x ∈ l →
  sumZ (map (λ v, if decide (x = v) then 1 else 0) l) = 1.
Proof.
  induction 1 as [|v l Hv Hnd IH]; intros Hin; [by apply elem_of_nil in Hin |].
  simpl. destruct (decide (x = v)) as [->|Hne].
  - assert (sumZ (map (λ v0, if decide (v = v0) then 1 else 0) l) = 0) as ->; [|done].
    clear IH Hin Hnd. induction l as [|u l IH]; simpl; [done |].
    apply not_elem_of_cons in Hv as [Hvu Hvl].
    rewrite decide_False by done. by rewrite IH.
  - apply elem_of_cons in Hin as [Heq|Hin]; [done |]. by rewrite IH.
Qed.

Lemma count_cons (x v : Z) (xs : list Z) :
  Z.of_nat (length (filter (λ y, y = v) (x :: xs)))
  = (if decide (x = v) then 1 else 0) + Z.of_nat (length (filter (λ y, y = v) xs)).
Proof.
  rewrite filter_cons. destruct (decide (x = v)); simpl; lia.
Qed.

Lemma compute_hist_total (xs : list Z) (bins : list Z) :
  NoDup bins → Forall (λ x, x ∈ bins) xs →
  sumZ (map (λ v, Z.of_nat (length (filter (λ x, x = v) xs))) bins)
  = Z.of_nat (length xs).
Proof.
  intros Hnd. induction 1 as [|x xs Hx Hxs IH]; simpl length.
  - simpl. induction bins as [|b bins IHb]; simpl; [done |].
    apply NoDup_cons in Hnd as [_ Hnd]. by rewrite IHb.
  - rewrite (map_ext _ _ (λ v, count_cons x v xs)).
    rewrite (sumZ_map_add (λ v, if decide (x = v) then 1 else 0)).
    rewrite IH, sumZ_indicator by done. lia.
Qed.

(** C7.  For every single-channel 8-bit image, the histogram has exactly 256
    bins, none of them negative, and they add up to the number of pixels,
    height times width. *)
Theorem compute_hist_sum (image : ndarray) (h w : nat) :
  shape image = [h; w] → well_shaped image → uint8 image →
  length (compute_hist image) = 256%nat
  ∧ Forall (λ c, 0 ≤ c) (compute_hist image)
  ∧ sumZ (compute_hist image) = Z.of_nat (h * w).
Proof.
  intros Hshape Hwf Hu8. unfold compute_hist.
  split; [by rewrite length_map, length_seqZ |].
  split.
  - apply Forall_forall. intros c (v & <- & _)%list_elem_of_In%in_map_iff. lia.
  - rewrite compute_hist_total.
    + rewrite Hwf. unfold size. rewrite Hshape. simpl. f_equal. lia.
    + apply NoDup_seqZ.
    + eapply Forall_impl; [exact Hu8 |]. intros x Hx. simpl in Hx. apply elem_of_seqZ. lia.
Qed.

Lemma drop_alpha_lookup (n : nat) : ∀ xs : list Z,
  length xs = (4 * n)%nat →
  length (drop_alpha xs) = (3 * n)%nat
  ∧ ∀ p c, (p < n)%nat → (c < 3)%nat →
      drop_alpha xs !! (3 * p + c)%nat = xs !! (4 * p + c)%nat.
Proof.
  induction n as [|n IH]; intros xs Hlen.
  - destruct xs; [|done]. split; [done | intros; lia].
  - destruct xs as [|c0 [|c1 [|c2 [|a rest]]]]; simpl in Hlen; try lia.
    destruct (IH rest) as [Hl Hlk]; [lia |].
    split; [simpl; lia |].
    intros p c Hp Hc. destruct p as [|p].
    + destruct c as [|[|[|c]]]; simpl; try done; lia.
    + replace (3 * S p + c)%nat with (S (S (S (3 * p + c)))) by lia.
      replace (4 * S p + c)%nat with (S (S (S (S (4 * p + c))))) by lia.
      simpl. apply Hlk; lia.
Qed.

(** C8.  For every four-channel raster, the loader returns an image of three
    channels and the same height and width, whose channels 0, 1 and 2 at
    every pixel are those of the source; the fourth channel is nowhere in
    the result and takes no part in its values. *)
Theorem load_image_discards_alpha demosaic (buf : ndarray) (h w : nat) :
  shape buf = [h; w; 4%nat] → well_shaped buf → size buf ≠ 0%nat →
  ∃ img,
    load_image demosaic (Decoded buf) = inr img
    ∧ shape img = [h; w; 3%nat]
    ∧ well_shaped img
    ∧ ∀ p c, (p < h * w)%nat → (c < 3)%nat →
        data img !! (3 * p + c)%nat = data buf !! (4 * p + c)%nat.
Proof.
  intros Hshape Hwf Hne. unfold load_image, canonicalize.
  rewrite decide_False by done. rewrite Hshape.
  eexists. split; [reflexivity |]. split; [done |].
  unfold well_shaped, size in *. rewrite Hshape in Hwf. simpl in *.
  destruct (drop_alpha_lookup (h * w) (data buf)) as [Hl Hlk]; [lia |].
  split; [lia | exact Hlk].
Qed.

End UtilityFacts.

(** ** Dependency validation *)

Section ValidateDepsFacts.
Import ValidateDeps.

Lemma for_items_check_step env detailed items : ∀ available missing out,
  (for_items items (check_step env detailed) (available, missing) out).1
  = (available ++ map fst (filter (importable env) items),
     missing ++ map fst (filter (λ item, ¬ importable env item) items)).
Proof.
  induction items as [|[package_name import_name] items IH];
    intros available missing out; simpl.
  - by rewrite !app_nil_r.
  - unfold mbind, Out_bind.
    destruct (decide (importable env (package_name, import_name))) as [Hyes|Hno].
    + rewrite (filter_cons_True (importable env)) by done.
      rewrite (filter_cons_False (λ item, ¬ importable env item))
        by (intros Hn; by apply Hn).
      unfold importable in Hyes. simpl in Hyes.
      unfold check_step, check_package, mbind, Out_bind. rewrite Hyes.
      destruct detailed; simpl; rewrite IH; simpl; by rewrite <- app_assoc.
    + rewrite (filter_cons_False (importable env)) by done.
      rewrite (filter_cons_True (λ item, ¬ importable env item)) by done.
      unfold importable in Hno. simpl in Hno.
      unfold check_step, check_package, mbind, Out_bind.
      destruct (import_module env import_name) as [e|]; [|done].
      destruct detailed; simpl; rewrite IH; simpl; by rewrite <- app_assoc.
Qed.

(** What [validate_dependencies] returns, whatever it prints. *)
Lemma validate_dependencies_result env detailed out :
  (validate_dependencies env detailed out).1
  = (bool_decide
       (length (map fst (filter (λ item, ¬ importable env item) get_required_packages))
        = 0%nat),
     map fst (filter (importable env) get_required_packages),
     map fst (filter (λ item, ¬ importable env item) get_required_packages)).
Proof.
  unfold validate_dependencies, mbind, Out_bind.
  destruct (when detailed _ out) as [[] out1].
  destruct (check_tensorflow env) as [tf_available tf_message].
  destruct (when detailed _ out1) as [[] out2].
  destruct (when detailed _ out2) as [[] out3].
  pose proof (for_items_check_step env detailed get_required_packages [] [] out3) as Hloop.
  destruct (for_items get_required_packages _ _ out3) as [[available missing] out4].
  cbn [fst] in Hloop. rewrite !app_nil_l in Hloop.
  injection Hloop as -> ->.
  destruct (when detailed _ out4) as [[] out5].
  reflexivity.
Qed.

Lemma filter_ext_Forall {A} (P Q : A → Prop)
    `{∀ x, Decision (P x)} `{∀ x, Decision (Q x)} (l : list A) :
  Forall (λ x, P x ↔ Q x) l → filter P l = filter Q l.
Proof.
  induction 1 as [|x l Hx Hl IH]; [done |].
  rewrite !filter_cons, IH.
  destruct (decide (P x)), (decide (Q x)); tauto.
Qed.

Lemma required_names_NoDup : NoDup (map fst get_required_packages).
Proof. apply (bool_decide_unpack _). vm_compute. reflexivity. Qed.

Lemma required_not_tensorflow :
  Forall (λ item : string * string, item.2 ≠ "tensorflow") get_required_packages.
Proof. apply (bool_decide_unpack _). vm_compute. reflexivity. Qed.

(** C10.  [validate_dependencies] returns [(all_good, available, missing)]
    where [available] lists, in the order of the dictionary, the packages
    whose import name imports, [missing] lists the others in the same order,
    [all_good] holds exactly when [missing] is empty, the two lists together
    are the sixteen required packages, each in exactly one of them, and
    neither the TensorFlow import nor the [detailed] flag changes the
    result. *)
Theorem validate_dependencies_partition env detailed out :
  let '(all_good, available, missing) := (validate_dependencies env detailed out).1 in
  let names := map fst get_required_packages in
  length names = 16%nat
  ∧ NoDup names
  ∧ available = map fst (filter (importable env) get_required_packages)
  ∧ missing = map fst (filter (λ item, ¬ importable env item) get_required_packages)
  ∧ (all_good = true ↔ missing = [])
  ∧ available ++ missing ≡ₚ names
  ∧ (∀ p, p ∈ names →
       (p ∈ available ∧ (p ∉ missing)) ∨ ((p ∉ available) ∧ p ∈ missing))
  ∧ (∀ env' detailed' out',
       (∀ m, m ≠ "tensorflow" → import_module env' m = import_module env m) →
       (validate_dependencies env' detailed' out').1 = (all_good, available, missing)).
Proof.
  rewrite validate_dependencies_result.
  set (available := map fst (filter (importable env) get_required_packages)).
  set (missing := map fst (filter (λ item, ¬ importable env item) get_required_packages)).
  intros names.
  assert (available ++ missing ≡ₚ names) as Hperm.
  { unfold available, missing, names. rewrite <- map_app.
    apply Permutation_map, filter_app_complement. }
  assert (NoDup (available ++ missing)) as Hnd.
  { rewrite Hperm. apply required_names_NoDup. }
  split; [done |]. split; [apply required_names_NoDup |].
  split; [done |]. split; [done |].
  split.
  { rewrite bool_decide_eq_true. apply length_zero_iff_nil. }
  split; [done |].
  split.
  { intros p Hp. rewrite <- Hperm in Hp.
    apply NoDup_app in Hnd as (_ & Hdisj & _).
    apply elem_of_app in Hp as [Ha|Hm].
    - left. split; [done | by apply Hdisj].
    - right. split; [|done]. intros Ha. by apply (Hdisj p). }
  intros env' detailed' out' Hsame.
  rewrite validate_dependencies_result. fold missing available.
  assert (Forall (λ item, importable env' item ↔ importable env item)
                 get_required_packages) as Hagree.
  { eapply Forall_impl; [apply required_not_tensorflow |].
    intros [pn imn] Hne. unfold importable. simpl in *. by rewrite Hsame. }
  assert (Forall (λ item, ¬ importable env' item ↔ ¬ importable env item)
                 get_required_packages) as Hagree'.
  { eapply Forall_impl; [exact Hagree |]. intros item Hi. simpl in *. tauto. }
  rewrite (filter_ext_Forall _ _ _ Hagree), (filter_ext_Forall _ _ _ Hagree').
  done.
Qed.

End ValidateDepsFacts.

(** * The theorems on concrete inputs *)

Section Witnesses.
Import MultipleCompression Utility ValidateDeps Fixtures.

Lemma run_graph_recompression_curve_witness :
  let curve := map (λ q, (q, mean_abs_diff img0 (toy_round_trip q))) qualities in
  (recompression_curve (cv := toy) w0).1 = Ok curve
  ∧ (run_graph (cv := toy) w0).1 = Ok tt
  ∧ figure (run_graph (cv := toy) w0).2 = [curve_axes curve]
  ∧ info_messages (run_graph (cv := toy) w0).2 =
      info_messages w0 ++ ["Recompression diffs: " +:+ str_samples (Native := toy) curve]
  ∧ map fst curve = [95; 90; 85; 80; 75; 70; 65; 60; 55; 50].
Proof.
  apply (run_graph_recompression_curve (cv := toy) w0 img0 toy_round_trip).
  - reflexivity.
  - repeat (constructor; [eexists _, _; repeat split; reflexivity |]).
    constructor.
Defined.

Lemma run_graph_ten_fixed_qualities_witness :
  (length toy_curve = 10%nat
   ∧ map fst toy_curve = [95; 90; 85; 80; 75; 70; 65; 60; 55; 50])
  ∧ ∃ diffs, (recompression_curve (cv := toy) w1).1 = Ok diffs
             ∧ length diffs = 10%nat
             ∧ map fst diffs = [95; 90; 85; 80; 75; 70; 65; 60; 55; 50]
             ∧ (run_graph (cv := toy) w1).1 = Ok tt
             ∧ figure (run_graph (cv := toy) w1).2 = [curve_axes diffs].
Proof.
  destruct (run_graph_ten_fixed_qualities (cv := toy) w1 img0) as [Hkeys Hruns].
  - reflexivity.
  - split.
    + apply Hkeys. vm_compute. reflexivity.
    + apply Hruns.
      repeat (constructor; [eexists; vm_compute; reflexivity |]). constructor.
Defined.

Lemma run_graph_deterministic_witness :
  (recompression_curve (cv := toy) w0).1 = (recompression_curve (cv := toy) w1).1
  ∧ (run_graph (cv := toy) w0).1 = (run_graph (cv := toy) w1).1
  ∧ figure (run_graph (cv := toy) w0).2 = figure (run_graph (cv := toy) w1).2
  ∧ result_label (run_graph (cv := toy) w0).2 = result_label (run_graph (cv := toy) w1).2
  ∧ (recompression_curve (cv := toy) (run_graph (cv := toy) w0).2).1
    = (recompression_curve (cv := toy) w0).1
  ∧ (run_graph (cv := toy) (run_graph (cv := toy) w0).2).1 = (run_graph (cv := toy) w0).1.
Proof.
  destruct (run_graph_deterministic (cv := toy) w0 w1 img0)
    as (Hcurve & Hrun & Hshown & Hagain & Hagain').
  - reflexivity.
  - reflexivity.
  - destruct Hshown as [Hfig Hlabel]; [vm_compute; reflexivity |].
    repeat split; assumption.
Defined.

Lemma run_heatmap_difference_map_witness :
  ∃ l diff,
    (heatmap_difference (cv := toy) w0).1 = Ok l
    ∧ heap (heatmap_difference (cv := toy) w0).2 !! l = Some diff
    ∧ shape diff = [2; 2; 3]%nat
    ∧ data diff = [1; 3; 3; 0; 2; 2; 3; 1; 3; 3; 1; 2]
    ∧ codec_calls (run_heatmap (cv := toy) w0).2
      = [CallImencode img0 70; CallImdecode toy_buf70 1]
    ∧ (run_heatmap (cv := toy) w0).1 = Ok tt
    ∧ heatmap_label (run_heatmap (cv := toy) w0).2
      = Some (mk_QPixmap 2 2 6 [1; 3; 3; 0; 2; 2; 3; 1; 3; 3; 1; 2]).
Proof.
  destruct (run_heatmap_difference_map (cv := toy) w0 img0 true toy_buf70
              (toy_round_trip 70))
    as (l & diff & Hl & Hheap & Hshape & Hlen & Helems & Hcalls & Hshown);
    [reflexivity | reflexivity | reflexivity | reflexivity |].
  exists l, diff.
  assert (diff = mk_ndarray [2; 2; 3]%nat [1; 3; 3; 0; 2; 2; 3; 1; 3; 3; 1; 2]) as Hdiff.
  { vm_compute in Hl. injection Hl as <-. vm_compute in Hheap. congruence. }
  destruct (Hshown diff 2%nat 2%nat 3%nat) as [Hok Hpix].
  { rewrite Hdiff. reflexivity. }
  { rewrite Hdiff. reflexivity. }
  rewrite Hdiff in Hpix |- *.
  repeat split; first [assumption | reflexivity | exact Hcalls | congruence].
Defined.

Lemma analyzers_preserve_image_witness :
  (image (run_graph (cv := flaky) w1).2 = 1%nat
   ∧ heap (run_graph (cv := flaky) w1).2 !! 1%nat = Some img0)
  ∧ (image (run_heatmap (cv := toy) w1).2 = 1%nat
     ∧ heap (run_heatmap (cv := toy) w1).2 !! 1%nat = Some img0).
Proof.
  destruct (analyzers_preserve_image (cv := flaky) w1 img0) as [(Hi & Hh & _) _];
    [reflexivity |].
  destruct (analyzers_preserve_image (cv := toy) w1 img0) as [_ (Hi' & Hh' & _)];
    [reflexivity |].
  rewrite Hi in Hh. rewrite Hi' in Hh'. repeat split; assumption.
Defined.

Lemma codec_failure_propagates_witness :
  ((run_graph (cv := flaky) w0).1 = Raise (cv2_error (-2))
   ∧ same_display w0 (run_graph (cv := flaky) w0).2
   ∧ codec_calls (run_graph (cv := flaky) w0).2
     = flat_map (calls (cv := flaky) img0) [95; 90; 85; 80; 75])
  ∧ ((run_heatmap (cv := flaky) w0).1 = Raise (cv2_error (-2))
     ∧ same_display w0 (run_heatmap (cv := flaky) w0).2
     ∧ codec_calls (run_heatmap (cv := flaky) w0).2 = [CallImencode img0 70]).
Proof.
  destruct (codec_failure_propagates (cv := flaky) w0 img0)
    as (_ & _ & _ & Hgraph & Hheat);
    [reflexivity |].
  split.
  - apply (Hgraph [95; 90; 85; 80] 75 [70; 65; 60; 55; 50] (cv2_error (-2))).
    + reflexivity.
    + repeat (constructor; [eexists; vm_compute; reflexivity |]). constructor.
    + reflexivity.
  - apply (Hheat (cv2_error (-2))). reflexivity.
Defined.

Lemma compute_hist_sum_witness :
  length (compute_hist gray0) = 256%nat
  ∧ Forall (λ c, 0 ≤ c) (compute_hist gray0)
  ∧ sumZ (compute_hist gray0) = 6.
Proof.
  apply (compute_hist_sum gray0 2 3).
  - reflexivity.
  - reflexivity.
  - unfold uint8; simpl. repeat constructor; lia.
Defined.

Lemma load_image_discards_alpha_witness :
  ∃ img,
    load_image None (Decoded bgra0) = inr img
    ∧ shape img = [1; 2; 3]%nat
    ∧ well_shaped img
    ∧ ∀ p c, (p < 1 * 2)%nat → (c < 3)%nat →
        data img !! (3 * p + c)%nat = data bgra0 !! (4 * p + c)%nat.
Proof.
  apply (load_image_discards_alpha None bgra0 1 2).
  - reflexivity.
  - reflexivity.
  - vm_compute. discriminate.
Defined.

Lemma validate_dependencies_partition_witness :
  (validate_dependencies env0_no_tf false ["earlier output"]).1
  = (validate_dependencies env0 true []).1.
Proof.
  generalize (validate_dependencies_partition env0 true []).
  destruct (validate_dependencies env0 true []).1 as [[all_good available] missing].
  intros (_ & _ & _ & _ & _ & _ & _ & Htf).
  apply Htf. intros m Hm. simpl. by rewrite decide_False.
Defined.

(** C5, as the specification states it, does not hold of the code: a
    failure of the decoder is not propagated as a failure of the decoder.
    [cv2.imdecode] reports a buffer it cannot decode by returning [None];
    neither method looks at the result, which is handed on to
    [cv2.absdiff], and what reaches the caller is the size mismatch of
    [cv2.absdiff]: the very exception that two arrays of different sizes
    give when the codec has not failed at all. *)
Lemma decoder_failure_surfaces_as_size_mismatch :
  let buf := mk_ndarray [15%nat]
               (toy_step 95 :: 2 :: 2 :: map (λ x, x / toy_step 95) (data img0)) in
  let buf70 := mk_ndarray [15%nat]
                 (toy_step 70 :: 2 :: 2 :: map (λ x, x / toy_step 70) (data img0)) in
  imencode (Native := MoreFixtures.mute_codec) img0 95 = Ok (true, buf)
  ∧ imdecode (Native := MoreFixtures.mute_codec) buf 1 = Ok None
  ∧ (run_graph (cv := MoreFixtures.mute_codec) w0).1
    = Raise (cv2_error StsUnmatchedSizes)
  ∧ codec_calls (run_graph (cv := MoreFixtures.mute_codec) w0).2
    = [CallImencode img0 95; CallImdecode buf 1]
  ∧ (run_heatmap (cv := MoreFixtures.mute_codec) w0).1
    = Raise (cv2_error StsUnmatchedSizes)
  ∧ codec_calls (run_heatmap (cv := MoreFixtures.mute_codec) w0).2
    = [CallImencode img0 70; CallImdecode buf70 1]
  ∧ absdiff img0 gray0 = Raise (cv2_error StsUnmatchedSizes).
Proof.
  intros buf buf70. subst buf buf70.
  split; [vm_compute; reflexivity |].
  split; [reflexivity |].
  split; [vm_compute; reflexivity |].
  split; [vm_compute; reflexivity |].
  split; [vm_compute; reflexivity |].
  split; vm_compute; reflexivity.
Qed.

(** Which of two levels diverges more is decided by the codec alone.  On the
    gradient of the test suite the toy codec diverges more at level 50 than
    at level 95, and a codec that is lossless at 50 does the opposite. *)
Example gradient_order_toy :
  ∃ d50 d95,
    sample (cv := toy) gradient 50 = Ok (50, d50)
    ∧ sample (cv := toy) gradient 95 = Ok (95, d95)
    ∧ PrimFloat.leb d95 d50 = true.
Proof.
  eexists _, _.
  split; [vm_compute; reflexivity |].
  split; vm_compute; reflexivity.
Qed.

Example gradient_order_perverse :
  ∃ d50 d95,
    sample (cv := perverse) gradient 50 = Ok (50, d50)
    ∧ sample (cv := perverse) gradient 95 = Ok (95, d95)
    ∧ PrimFloat.ltb d50 d95 = true.
Proof.
  eexists _, _.
  split; [vm_compute; reflexivity |].
  split; vm_compute; reflexivity.
Qed.

(** *** Worked examples *)

Example toy_curve_computed :
  (recompression_curve (cv := toy) w0).1 = Ok toy_curve.
Proof. vm_compute. reflexivity. Qed.

Example flaky_sweep_stops_at_75 :
  (run_graph (cv := flaky) w0).1 = Raise (cv2_error (-2))
  ∧ length (codec_calls (run_graph (cv := flaky) w0).2) = 9%nat
  ∧ figure (run_graph (cv := flaky) w0).2 = [].
Proof. vm_compute. repeat split; reflexivity. Qed.

Example load_image_bgra0 :
  load_image None (Decoded bgra0) = inr (mk_ndarray [1; 2; 3]%nat [1; 2; 3; 4; 5; 6]).
Proof. reflexivity. Qed.

Example load_image_gray0 :
  load_image None (Decoded gray0)
  = inr (mk_ndarray [2; 3; 3]%nat
           [0; 0; 0; 255; 255; 255; 7; 7; 7; 7; 7; 7; 128; 128; 128; 7; 7; 7]).
Proof. reflexivity. Qed.

Example load_image_raw_without_capability :
  load_image None (RawSensor [1; 2]) = inl UnsupportedFormat.
Proof. reflexivity. Qed.

Example validate_dependencies_env0 :
  (validate_dependencies env0 true []).1
  = (false,
     ["PySide6"; "opencv-contrib-python-headless"; "numpy"; "Pillow";
      "matplotlib"; "pandas"; "scikit-learn"; "lxml"; "python-magic";
      "sewar"; "PyWavelets"; "astor"; "concurrent-iterator";
      "keras-applications"],
     ["rawpy"; "xgboost"])
  ∧ length (validate_dependencies env0 true []).2 = 25%nat
  ∧ (validate_dependencies env0 false []).2 = [].
Proof. vm_compute. repeat split; reflexivity. Qed.

End Witnesses.

(** * Further properties of the widget *)

Section WidgetSessionFacts.
Import MultipleCompression WidgetSession.
Context `{cv : Native}.

Lemma calls_of_image img q :
  q ∈ 70 :: qualities → Forall (call_of img) (calls img q) ∧ (length (calls img q) ≤ 2)%nat.
Proof.
  intros Hq. unfold calls.
  destruct (imencode img q) as [[? ?]|?];
    (split; [repeat (constructor; [by simpl |]); constructor | simpl; lia]).
Qed.

Lemma sweep_calls_of_image img qs :
  (∀ q, q ∈ qs → q ∈ 70 :: qualities) →
  Forall (call_of img) (sweep_calls img qs)
  ∧ (length (sweep_calls img qs) ≤ 2 * length qs)%nat.
Proof.
  induction qs as [|q qs IH]; intros Hqs; [by split; [constructor | simpl; lia] |].
  destruct (calls_of_image img q) as [Hc Hl]; [apply Hqs; by left |].
  destruct IH as [Hs Hsl]; [intros q' Hq'; apply Hqs; by right |].
  cbn [sweep_calls].
  destruct (sample img q).
  - split; [by apply Forall_app |]. rewrite length_app.
    change (length (q :: qs)) with (S (length qs)). lia.
  - rewrite app_nil_r. split; [done |].
    change (length (q :: qs)) with (S (length qs)). lia.
Qed.

(** What one press leaves behind. *)
Lemma clicked_run b w img :
  heap w !! image w = Some img →
  let w' := (clicked b w).2 in
  image w' = image w
  ∧ heap w `prefix_of` heap w'
  ∧ ∃ cs, codec_calls w' = codec_calls w ++ cs
          ∧ Forall (call_of img) cs
          ∧ (length cs ≤ match b with ShowGraph => 20 | ShowHeatmap => 2 end)%nat.
Proof.
  intros Himg. destruct b; cbn [clicked].
  - pose proof (run_graph_run w img Himg) as Hg. cbv zeta in Hg.
    destruct Hg as (Hi & Hp & Hc & _).
    destruct (sweep_calls_of_image img qualities) as [Hall Hlen]; [by right |].
    repeat split; try done. eexists. split; [exact Hc |]. split; [done |].
    exact Hlen.
  - pose proof (run_heatmap_run w img Himg) as Hh. cbv zeta in Hh.
    destruct Hh as (Hi & Hp & Hc & _).
    destruct (calls_of_image img 70) as [Hall Hlen]; [by left |].
    repeat split; try done. by eexists.
Qed.

(** However the two buttons are pressed, [self.image] stays the same object
    with the same pixels, the store only grows, and the codec is only ever
    asked to encode that image at one of the widget's eleven levels and to
    decode with the colour flag: at most twenty calls for each press of
    "Show Graph" and two for each press of "Show Heatmap". *)
Theorem session_frame (bs : list Button) : ∀ w img,
  heap w !! image w = Some img →
  let w' := session bs w in
  image w' = image w
  ∧ heap w' !! image w' = Some img
  ∧ heap w `prefix_of` heap w'
  ∧ ∃ cs, codec_calls w' = codec_calls w ++ cs
          ∧ Forall (call_of img) cs
          ∧ (length cs ≤ 20 * presses ShowGraph bs + 2 * presses ShowHeatmap bs)%nat.
Proof.
  induction bs as [|b bs IH]; intros w img Himg.
  - cbn. repeat split; try done. exists []. rewrite app_nil_r.
    repeat split; [constructor | simpl; lia].
  - pose proof (clicked_run b w img Himg) as Hb. cbv zeta in Hb.
    destruct Hb as (Hi & Hp & cs1 & Hc1 & Hall1 & Hlen1).
    pose proof (image_kept w _ img Himg Hi Hp) as Himg1.
    pose proof (IH _ img Himg1) as Hrest. cbv zeta in Hrest.
    destruct Hrest as (Hi2 & Hk2 & Hp2 & cs2 & Hc2 & Hall2 & Hlen2).
    cbn [session].
    split; [congruence |]. split; [done |]. split; [by etrans |].
    exists (cs1 ++ cs2). rewrite Hc2, Hc1, <- app_assoc.
    split; [done |]. split; [by apply Forall_app |].
    rewrite length_app. unfold presses in *. rewrite !filter_cons.
    destruct b; simpl in *; lia.
Qed.

(** From the creation of the widget on, and however the buttons are
    pressed, whenever a plot is on display it is the only one, its
    abscissae are the ten levels 95, ..., 50, and the label reports the very
    samples that are plotted. *)
Theorem session_display_consistent (bs : list Button) : ∀ w img,
  heap w !! image w = Some img →
  display_consistent w →
  display_consistent (session bs w).
Proof.
  induction bs as [|b bs IH]; intros w img Himg Hd; [done |].
  pose proof (clicked_run b w img Himg) as Hb. cbv zeta in Hb.
  destruct Hb as (Hi & Hp & _).
  pose proof (image_kept w _ img Himg Hi Hp) as Himg1.
  cbn [session]. apply (IH _ img Himg1).
  destruct b; cbn [clicked].
  - pose proof (run_graph_run w img Himg) as Hg. cbv zeta in Hg.
    destruct Hg as (_ & _ & _ & _ & Hres).
    destruct (sweep img qualities []) as [diffs|e] eqn:Hs.
    + destruct Hres as (_ & Hl & Hf & _).
      right. exists diffs. split; [done |]. split; [done |].
      by apply sweep_app in Hs as (new & -> & Hk & _).
    + destruct Hres as (_ & (Hl & Hf & _)).
      unfold display_consistent. rewrite Hf, Hl. exact Hd.
  - pose proof (run_heatmap_run w img Himg) as Hh. cbv zeta in Hh.
    destruct Hh as (_ & _ & _ & Hl & Hf & _).
    unfold display_consistent. rewrite Hf, Hl. exact Hd.
Qed.

(** The two buttons do not interfere: pressed in either order they end in
    the same outcome each and leave the same label, plot, pixmap, message
    log and number of redraws. *)
Theorem buttons_commute w img :
  heap w !! image w = Some img →
  let gh := run_heatmap (run_graph w).2 in
  let hg := run_graph (run_heatmap w).2 in
  gh.1 = (run_heatmap w).1
  ∧ hg.1 = (run_graph w).1
  ∧ result_label gh.2 = result_label hg.2
  ∧ figure gh.2 = figure hg.2
  ∧ heatmap_label gh.2 = heatmap_label hg.2
  ∧ info_messages gh.2 = info_messages hg.2
  ∧ canvas_draws gh.2 = canvas_draws hg.2.
Proof.
  intros Himg.
  pose proof (run_graph_run w img Himg) as G.
  pose proof (run_heatmap_run w img Himg) as Hm. cbv zeta in G, Hm.
  destruct G as (Gi & Gp & _ & Gh & G), Hm as (Hi & Hp & _ & Hl & Hf & Hc & Hmsg & Hm).
  pose proof (image_kept w _ img Himg Gi Gp) as Himg_g.
  pose proof (image_kept w _ img Himg Hi Hp) as Himg_h.
  pose proof (run_heatmap_run _ img Himg_g) as Hm'.
  pose proof (run_graph_run _ img Himg_h) as G'. cbv zeta in G', Hm'.
  destruct G' as (_ & _ & _ & Gh' & G').
  destruct Hm' as (_ & _ & _ & Hl' & Hf' & Hc' & Hmsg' & Hm').
  cbv zeta.
  assert (sames : ∀ (o o' : outcome unit) (p p' q : option QPixmap),
            match difference img 70 with
            | Ok d =>
                match applyColorMap d COLORMAP_JET with
                | Ok hm =>
                    match shape hm with
                    | [h; wd; ch] => o = Ok tt ∧ p = Some (mk_QPixmap wd h (ch * wd) (data hm))
                    | _ => o = Raise ValueError ∧ p = q
                    end
                | Raise e => o = Raise e ∧ p = q
                end
            | Raise e => o = Raise e ∧ p = q
            end →
            match difference img 70 with
            | Ok d =>
                match applyColorMap d COLORMAP_JET with
                | Ok hm =>
                    match shape hm with
                    | [h; wd; ch] => o' = Ok tt ∧ p' = Some (mk_QPixmap wd h (ch * wd) (data hm))
                    | _ => o' = Raise ValueError ∧ p' = q
                    end
                | Raise e => o' = Raise e ∧ p' = q
                end
            | Raise e => o' = Raise e ∧ p' = q
            end → o = o' ∧ p = p').
  { intros o o' p p' q.
    destruct (difference img 70) as [d|e]; [|intuition congruence].
    destruct (applyColorMap d COLORMAP_JET) as [hm|e]; [|intuition congruence].
    destruct (shape hm) as [|h [|wd [|ch [|? ?]]]]; intuition congruence. }
  rewrite Gh in Hm'.
  destruct (sames _ _ _ _ _ Hm' Hm) as [Ho Hpix].
  split; [exact Ho |].
  destruct (sweep img qualities []) as [diffs|e].
  - destruct G as (Go & Gl & Gf & Gc & Gm), G' as (Go' & Gl' & Gf' & Gc' & Gm').
    repeat split; congruence.
  - destruct G as (Go & (Gl & Gf & Gc & _ & Gm)).
    destruct G' as (Go' & (Gl' & Gf' & Gc' & _ & Gm')).
    repeat split; congruence.
Qed.

(** What [cv2.absdiff] makes of a single-channel array beside a
    three-channel one: an array of 1 x 1, 3 x 1 or 1 x 3 is taken for a
    scalar beside three channels, and so is a single pixel of three
    channels beside one channel; a scalar of 8-bit type fails the
    assertion, and any other pair is rejected for its sizes. *)
Lemma absdiff_gray_colour img dec (h wd h' wd' : nat) :
  shape img = [h; wd] → shape dec = [h'; wd'; 3%nat] →
  absdiff img dec
  = Raise (cv2_error
      (if bool_decide ((h = 1 ∧ wd = 1) ∨ (h = 3 ∧ wd = 1) ∨ (h = 1 ∧ wd = 3)
                       ∨ (h' = 1 ∧ wd' = 1))%nat
       then StsAssert else StsUnmatchedSizes)).
Proof.
  intros Hi Hd. unfold absdiff, mat_of. rewrite Hi, Hd.
  rewrite decide_False by done.
  rewrite bool_decide_eq_true_2 by (unfold CV_CN_MAX; lia).
  rewrite decide_False by (intros [=]).
  unfold arithm_op_rejects, checkScalar. cbn [rows cols channels].
  repeat case_bool_decide; cbn [orb]; try done; exfalso; lia.
Qed.

(** A single-channel (two-dimensional) array cannot be analysed: the
    decoder, asked for colour, gives back three channels, so both methods
    raise after at most one encoding and one decoding and put nothing on
    display.  When the round trip itself went through, the exception is
    that of [cv2.absdiff]: the failed assertion when the image is 1 x 1,
    3 x 1 or 1 x 3 or the decoded array is a single pixel, since one
    operand is then taken for a scalar, and the size mismatch otherwise. *)
Theorem single_channel_image_is_rejected w img (h wd : nat) :
  heap w !! image w = Some img →
  shape img = [h; wd] →
  (∀ buf dec, imdecode buf 1 = Ok (Some dec) →
              ∃ h' wd', shape dec = [h'; wd'; 3%nat]) →
  (∃ e, (run_graph w).1 = Raise e
        ∧ same_display w (run_graph w).2
        ∧ codec_calls (run_graph w).2 = codec_calls w ++ calls img 95
        ∧ (∀ retval buf dec (h' wd' : nat),
             imencode img 95 = Ok (retval, buf) → imdecode buf 1 = Ok (Some dec) →
             shape dec = [h'; wd'; 3%nat] →
             let scalar := ((h = 1 ∧ wd = 1) ∨ (h = 3 ∧ wd = 1) ∨ (h = 1 ∧ wd = 3)
                            ∨ (h' = 1 ∧ wd' = 1))%nat in
             (scalar → e = cv2_error StsAssert)
             ∧ (¬ scalar → e = cv2_error StsUnmatchedSizes)))
  ∧ (∃ e, (run_heatmap w).1 = Raise e
          ∧ same_display w (run_heatmap w).2
          ∧ codec_calls (run_heatmap w).2 = codec_calls w ++ calls img 70
          ∧ (∀ retval buf dec (h' wd' : nat),
               imencode img 70 = Ok (retval, buf) → imdecode buf 1 = Ok (Some dec) →
               shape dec = [h'; wd'; 3%nat] →
               let scalar := ((h = 1 ∧ wd = 1) ∨ (h = 3 ∧ wd = 1) ∨ (h = 1 ∧ wd = 3)
                              ∨ (h' = 1 ∧ wd' = 1))%nat in
               (scalar → e = cv2_error StsAssert)
               ∧ (¬ scalar → e = cv2_error StsUnmatchedSizes))).
Proof.
  intros Himg Hshape Hcolour.
  assert (∀ q, ∃ e, difference img q = Raise e
                    ∧ ∀ retval buf dec (h' wd' : nat),
                        imencode img q = Ok (retval, buf) →
                        imdecode buf 1 = Ok (Some dec) →
                        shape dec = [h'; wd'; 3%nat] →
                        let scalar := ((h = 1 ∧ wd = 1) ∨ (h = 3 ∧ wd = 1)
                                       ∨ (h = 1 ∧ wd = 3) ∨ (h' = 1 ∧ wd' = 1))%nat in
                        (scalar → e = cv2_error StsAssert)
                        ∧ (¬ scalar → e = cv2_error StsUnmatchedSizes)) as Hfail.
  { intros q. unfold difference.
    destruct (imencode img q) as [[retval buf]|e];
      [|eexists; split; [done | by intros ????? [=]]].
    destruct (imdecode buf 1) as [[dec|]|e] eqn:Hdec.
    - destruct (Hcolour buf dec Hdec) as (h' & wd' & Hd).
      rewrite (absdiff_gray_colour img dec h wd h' wd' Hshape Hd).
      eexists. split; [done |].
      intros ? ? dec' h'' wd'' [= _ <-] Hdec' Hd'. cbv zeta.
      assert (dec' = dec) as -> by congruence.
      assert (h'' = h' ∧ wd'' = wd') as [-> ->] by (split; congruence).
      case_bool_decide; split; intros; done.
    - rewrite (absdiff_none_status img h wd [] Hshape)
        by (unfold mat_of; by rewrite Hshape).
      eexists. split; [done |]. intros ????? [= _ <-]. congruence.
    - eexists. split; [done |]. intros ????? [= _ <-]. congruence. }
  pose proof (run_graph_run w img Himg) as G.
  pose proof (run_heatmap_run w img Himg) as Hm. cbv zeta in G, Hm.
  destruct G as (_ & _ & Gc & _ & G), Hm as (_ & _ & Hc & Hl & Hf & Hd & Hmsg & Hm).
  split.
  - destruct (Hfail 95) as (e & He & Hwhy).
    assert (sample img 95 = Raise e) as Hs by (unfold sample; by rewrite He).
    destruct (sweep_raise img [] 95 [90; 85; 80; 75; 70; 65; 60; 55; 50] e [])
      as [Hsw Hsc]; [constructor | done |].
    change ([] ++ 95 :: [90; 85; 80; 75; 70; 65; 60; 55; 50]) with qualities in Hsw, Hsc.
    rewrite Hsw in G. rewrite Hsc in Gc. simpl in Gc. rewrite app_nil_r in Gc.
    exists e. destruct G as [Go Gd].
    split; [done |]. split; [done |]. split; [done |]. exact Hwhy.
  - destruct (Hfail 70) as (e & He & Hwhy).
    rewrite He in Hm. destruct Hm as [Ho Hp].
    exists e. split; [done |]. split; [by repeat split |]. split; [done |].
    exact Hwhy.
Qed.

(** A buffer the decoder cannot decode is not detected: the decoder returns
    [None], the code hands it on, and the run ends in the error with which
    [cv2.absdiff] rejects the empty matrix beside an image, after one
    encoding and one decoding and with nothing put on display.  For an
    image of two or three axes that has pixels this is the size mismatch,
    and the failed assertion when the image is a single pixel. *)
Theorem undecodable_buffer_is_not_detected w img (h wd : nat) (rest : list nat) :
  heap w !! image w = Some img →
  shape img = h :: wd :: rest →
  (rest = [] ∨ ∃ c, rest = [c] ∧ 1 ≤ c ≤ CV_CN_MAX)%nat →
  (0 < h ∧ 0 < wd)%nat →
  let e := cv2_error (if bool_decide (h = 1 ∧ wd = 1)%nat
                      then StsAssert else StsUnmatchedSizes) in
  (∀ retval buf,
     imencode img 95 = Ok (retval, buf) → imdecode buf 1 = Ok None →
     (run_graph w).1 = Raise e
     ∧ same_display w (run_graph w).2
     ∧ codec_calls (run_graph w).2
       = codec_calls w ++ [CallImencode img 95; CallImdecode buf 1])
  ∧ (∀ retval buf,
       imencode img 70 = Ok (retval, buf) → imdecode buf 1 = Ok None →
       (run_heatmap w).1 = Raise e
       ∧ same_display w (run_heatmap w).2
       ∧ codec_calls (run_heatmap w).2
         = codec_calls w ++ [CallImencode img 70; CallImdecode buf 1]).
Proof.
  intros Himg Hshape Hrest _ e.
  assert (absdiff_none img = Raise e) as Hnone.
  { apply (absdiff_none_status img h wd rest Hshape).
    unfold mat_of. rewrite Hshape.
    destruct Hrest as [->|(c & -> & Hc)]; [done |].
    by rewrite bool_decide_eq_true_2. }
  pose proof (run_graph_run w img Himg) as G.
  pose proof (run_heatmap_run w img Himg) as Hm. cbv zeta in G, Hm.
  destruct G as (_ & _ & Gc & _ & G), Hm as (_ & _ & Hc & Hl & Hf & Hd & Hmsg & Hm).
  split; intros retval buf Henc Hdec.
  - pose proof (difference_decode_none img 95 retval buf Henc Hdec) as He.
    rewrite Hnone in He.
    assert (sample img 95 = Raise e) as Hs by (unfold sample; by rewrite He).
    destruct (sweep_raise img [] 95 [90; 85; 80; 75; 70; 65; 60; 55; 50] e [])
      as [Hsw Hsc]; [constructor | done |].
    change ([] ++ 95 :: [90; 85; 80; 75; 70; 65; 60; 55; 50]) with qualities in Hsw, Hsc.
    rewrite Hsw in G. rewrite Hsc in Gc. simpl in Gc. rewrite app_nil_r in Gc.
    unfold calls in Gc. rewrite Henc in Gc. destruct G as [Go Gd]. done.
  - pose proof (difference_decode_none img 70 retval buf Henc Hdec) as He.
    rewrite Hnone in He.
    rewrite He in Hm. destruct Hm as [Ho Hp].
    unfold calls in Hc. rewrite Henc in Hc. repeat split; done.
Qed.

(** A run of [run_graph] that completes has made exactly one encoding and
    one decoding for each of the ten levels, in the order of the levels,
    each decoding on the buffer the encoding just before it returned: twenty
    codec calls, none repeated and none skipped. *)
Theorem run_graph_one_round_trip_per_level w img (bufs : Z → ndarray) :
  heap w !! image w = Some img →
  Forall (λ q, ∃ retval dec,
            imencode img q = Ok (retval, bufs q)
            ∧ imdecode (bufs q) 1 = Ok (Some dec)
            ∧ shape dec = shape img) qualities →
  (run_graph w).1 = Ok tt
  ∧ codec_calls (run_graph w).2
    = codec_calls w
      ++ flat_map (λ q, [CallImencode img q; CallImdecode (bufs q) 1]) qualities
  ∧ length (codec_calls (run_graph w).2) = (length (codec_calls w) + 20)%nat.
Proof.
  intros Himg Hall.
  assert (∀ qs diffs, Forall (λ q, ∃ retval dec,
            imencode img q = Ok (retval, bufs q)
            ∧ imdecode (bufs q) 1 = Ok (Some dec)
            ∧ shape dec = shape img) qs →
          (∃ diffs', sweep img qs diffs = Ok diffs')
          ∧ sweep_calls img qs
            = flat_map (λ q, [CallImencode img q; CallImdecode (bufs q) 1]) qs) as Hgen.
  { induction qs as [|q qs IH]; intros diffs Hqs; [by split; [eexists |] |].
    inversion_clear Hqs as [|?? (retval & dec & Henc & Hdec & Hsh) Hrest].
    destruct (sample_round_trip img q retval (bufs q) dec Henc Hdec Hsh) as [_ Hs].
    cbn [sweep sweep_calls flat_map]. rewrite Hs.
    destruct (IH (diffs ++ [(q, mean_abs_diff img dec)]) Hrest) as [Hok ->].
    split; [done |]. unfold calls. by rewrite Henc. }
  destruct (Hgen qualities [] Hall) as [[diffs Hs] Hc].
  pose proof (run_graph_run w img Himg) as G. cbv zeta in G.
  destruct G as (_ & _ & Gc & _ & G). rewrite Hs in G. rewrite Hc in Gc.
  destruct G as (Go & _). split; [done |]. split; [done |].
  rewrite Gc, length_app. done.
Qed.

(** The pixmap of the heat map is laid over the heat map's own buffer and
    covers it exactly: when the colour map returns a well-shaped array of
    shape [[h; w; ch]], the pixmap is [w] wide and [h] high with lines of
    [ch * w] bytes, its bytes are those of the heat map, and [h] such lines
    are all of them. *)
Theorem run_heatmap_pixmap_geometry w img d hm (h wd ch : nat) :
  heap w !! image w = Some img →
  difference img 70 = Ok d →
  applyColorMap d COLORMAP_JET = Ok hm →
  shape hm = [h; wd; ch] →
  well_shaped hm →
  (run_heatmap w).1 = Ok tt
  ∧ ∃ p, heatmap_label (run_heatmap w).2 = Some p
         ∧ pm_width p = wd ∧ pm_height p = h
         ∧ pm_bytesPerLine p = (ch * wd)%nat
         ∧ pm_bits p = data hm
         ∧ (pm_height p * pm_bytesPerLine p = length (pm_bits p))%nat.
Proof.
  intros Himg Hd Hcm Hsh Hwf.
  pose proof (run_heatmap_run w img Himg) as Hm. cbv zeta in Hm.
  destruct Hm as (_ & _ & _ & _ & _ & _ & _ & Hm).
  rewrite Hd, Hcm, Hsh in Hm. destruct Hm as [Hok Hp].
  split; [exact Hok |].
  eexists. split; [exact Hp |]. simpl. repeat split.
  unfold well_shaped, size in Hwf. rewrite Hsh in Hwf. simpl in Hwf. lia.
Qed.

Lemma zip_with_absdiff_zero (xs ys : list Z) :
  length xs = length ys →
  Forall (λ v, v = 0) (zip_with (λ x y, Z.abs (x - y)) xs ys) ↔ ys = xs.
Proof.
  revert ys. induction xs as [|x xs IH]; intros [|y ys] Hlen; simpl in *; try lia.
  - split; [done | constructor].
  - rewrite Forall_cons, IH by lia. split.
    + intros [Hxy ->]. f_equal. lia.
    + intros [= -> ->]. split; [lia | done].
Qed.

Lemma zip_with_absdiff_uint8 (xs ys : list Z) :
  Forall (λ x, 0 ≤ x < 256) xs → Forall (λ x, 0 ≤ x < 256) ys →
  Forall (λ x, 0 ≤ x < 256) (zip_with (λ x y, Z.abs (x - y)) xs ys).
Proof.
  intros Hx. revert ys.
  induction Hx as [|x xs Hx Hxs IH]; intros [|y ys] Hys; simpl; try constructor.
  - inversion_clear Hys as [|?? Hy _]. lia.
  - inversion_clear Hys. by apply IH.
Qed.

(** The difference image of the heat map is itself a valid 8-bit image of
    the input's size, and it is blank (all zero) exactly when the round
    trip at level 70 gave back the input unchanged. *)
Theorem heatmap_difference_blank_iff_lossless w img retval buf dec :
  heap w !! image w = Some img →
  imencode img 70 = Ok (retval, buf) →
  imdecode buf 1 = Ok (Some dec) →
  shape dec = shape img →
  well_shaped img → well_shaped dec → uint8 img → uint8 dec →
  ∃ l diff,
    (heatmap_difference w).1 = Ok l
    ∧ heap (heatmap_difference w).2 !! l = Some diff
    ∧ shape diff = shape img ∧ well_shaped diff ∧ uint8 diff
    ∧ (Forall (λ v, v = 0) (data diff) ↔ dec = img).
Proof.
  intros Himg Henc Hdec Hshape Hwi Hwd Hui Hud.
  destruct (sample_round_trip img 70 retval buf dec Henc Hdec Hshape) as [Hdiff _].
  pose proof (heatmap_difference_run w img Himg) as Hd. cbv zeta in Hd.
  rewrite Hdiff in Hd. destruct Hd as (_ & _ & _ & _ & l & Hl & Hheap).
  assert (length (data img) = length (data dec)) as Hlen.
  { unfold well_shaped, size in *. by rewrite Hwi, Hwd, Hshape. }
  eexists l, _. split; [exact Hl |]. split; [exact Hheap |].
  split; [done |]. split.
  { unfold well_shaped, size in *. simpl. rewrite length_zip_with. lia. }
  split; [by apply zip_with_absdiff_uint8 |].
  simpl. rewrite zip_with_absdiff_zero by done. split.
  - intros Hdata. destruct dec, img. simpl in *. congruence.
  - by intros ->.
Qed.

End WidgetSessionFacts.

(** * Further properties of the dependency validator *)

Section ValidateDepsReportFacts.
Import ValidateDeps ValidateDepsCli.

Lemma for_items_check_step_out env detailed items : ∀ acc out,
  (for_items items (check_step env detailed) acc out).2
  = out ++ (if detailed
            then map (λ item, "  " +:+ (check_package env item.1 item.2).2) items
            else []).
Proof.
  induction items as [|[package_name import_name] items IH]; intros [av mi] out.
  - cbn. destruct detailed; by rewrite app_nil_r.
  - cbn [for_items]. unfold mbind, Out_bind.
    destruct (check_step env detailed (package_name, import_name) (av, mi) out)
      as [acc1 out1] eqn:Hstep.
    rewrite IH.
    assert (out1 = out ++ (if detailed
                           then ["  " +:+ (check_package env package_name import_name).2]
                           else [])) as ->.
    { unfold check_step, mbind, Out_bind in Hstep.
      destruct (check_package env package_name import_name) as [[] msg];
        destruct detailed; cbn in Hstep; injection Hstep as _ <-;
        by rewrite ?app_nil_r. }
    destruct detailed; cbn [map fst snd]; by rewrite <- app_assoc.
Qed.

Lemma for_items_print_out (f : string → string) items : ∀ out,
  (for_items items (λ pkg _, print (f pkg)) tt out).2 = out ++ map f items.
Proof.
  induction items as [|x items IH]; intros out; cbn.
  - by rewrite app_nil_r.
  - unfold mbind, Out_bind. cbn. rewrite IH, <- app_assoc. done.
Qed.

(** With [detailed=False] the validator prints nothing at all. *)
Theorem validate_dependencies_silent env out :
  (validate_dependencies env false out).2 = out.
Proof.
  unfold validate_dependencies, mbind, Out_bind. cbn [when mret Out_ret].
  destruct (check_tensorflow env) as [tf_available tf_message].
  pose proof (for_items_check_step_out env false get_required_packages ([], []) out) as Hout.
  destruct (for_items get_required_packages _ _ out) as [[available missing] out1].
  cbn in Hout. rewrite app_nil_r in Hout. by subst.
Qed.

(** With [detailed=True] the validator keeps what was printed before and
    appends its report: four heading lines, then exactly one status line
    for each required package in the order of the dictionary, then the
    summary, in which every missing package is listed once more, and a last
    line when TensorFlow is absent. *)
Theorem validate_dependencies_report env out :
  let '(all_good, available, missing) := (validate_dependencies env true out).1 in
  (validate_dependencies env true out).2
  = out
    ++ [ "🔍 Validating LOOK-DGC dependencies..."; str_mul "=" 50;
         (check_tensorflow env).2; newline +:+ "📦 Required packages:" ]
    ++ map (λ item, "  " +:+ (check_package env item.1 item.2).2) get_required_packages
    ++ [ newline +:+ str_mul "=" 50;
         "✅ Available: " +:+ pretty (length available) +:+ "/" +:+ pretty 16%nat ]
    ++ match missing with
       | [] => ["✅ All required packages are installed!"]
       | _ :: _ =>
           ("❌ Missing: " +:+ pretty (length missing))
           :: map (λ pkg, "   - " +:+ pkg) missing
       end
    ++ (if (check_tensorflow env).1 then []
        else ["⚠ TensorFlow is recommended for full functionality"])
  ∧ (length available + length missing = 16)%nat.
Proof.
  rewrite validate_dependencies_result. lazy beta iota zeta.
  set (available := map fst (filter (importable env) get_required_packages)).
  set (missing := map fst (filter (λ item, ¬ importable env item) get_required_packages)).
  split.
  2:{ unfold available, missing. rewrite <- length_app, <- map_app.
      rewrite (Permutation_length
                 (Permutation_map fst (filter_app_complement (importable env)
                                         get_required_packages))).
      done. }
  unfold validate_dependencies, mbind, Out_bind. cbn [when mret Out_ret].
  destruct (check_tensorflow env) as [tf_available tf_message].
  unfold print at 1 2 3 4. cbn [fst snd].
  match goal with
  | |- context [for_items get_required_packages _ _ ?o] =>
      pose proof (for_items_check_step_out env true get_required_packages ([], []) o) as Hout;
      pose proof (for_items_check_step env true get_required_packages [] [] o) as Hres;
      destruct (for_items get_required_packages (check_step env true) ([], []) o)
        as [[available' missing'] out1]
  end.
  cbn [fst snd] in Hout, Hres. rewrite !app_nil_l in Hres.
  injection Hres as -> ->. fold available missing. subst out1.
  destruct missing as [|m missing']; destruct tf_available;
    cbn [negb when mret Out_ret fst snd];
    try (unfold print at 1 2 3; cbn [fst snd]);
    try match goal with
        | |- context [for_items (m :: missing') ?f () ?o] =>
            pose proof (for_items_print_out (λ pkg, "   - " +:+ pkg) (m :: missing') o) as Hp;
            cbv beta in Hp;
            destruct (for_items (m :: missing') f () o) as [[] o2];
            cbn [snd] in Hp; subst o2
        end;
    unfold print; cbn [fst snd];
    rewrite <- ?app_assoc; cbn [app]; rewrite ?app_nil_r; reflexivity.
Qed.

Lemma append_assoc (s1 s2 s3 : string) : (s1 +:+ s2) +:+ s3 = s1 +:+ s2 +:+ s3.
Proof.
  induction s1 as [|a s1 IH]; [reflexivity |].
  change (String a ((s1 +:+ s2) +:+ s3) = String a (s1 +:+ s2 +:+ s3)).
  by rewrite IH.
Qed.

Lemma append_nil_r (s : string) : s +:+ EmptyString = s.
Proof.
  induction s as [|a s IH]; [reflexivity |].
  change (String a (s +:+ EmptyString) = String a s). by rewrite IH.
Qed.

Lemma mentions_refl s : mentions s s.
Proof. exists EmptyString, EmptyString. by rewrite append_nil_r. Qed.

Lemma mentions_app_l text word pre : mentions text word → mentions (pre +:+ text) word.
Proof.
  intros (a & b & ->). exists (pre +:+ a), b. by rewrite append_assoc.
Qed.

Lemma mentions_app_r text word post : mentions text word → mentions (text +:+ post) word.
Proof.
  intros (a & b & ->). exists a, (b +:+ post). by rewrite !append_assoc.
Qed.

Lemma str_join_mentions sep (xs : list string) p :
  p ∈ xs → mentions (str_join sep xs) p.
Proof.
  induction xs as [|x xs IH]; intros Hp; [by apply elem_of_nil in Hp |].
  apply elem_of_cons in Hp as [->|Hp].
  - destruct xs; [apply mentions_refl |].
    cbn [str_join]. apply mentions_app_r, mentions_refl.
  - destruct xs as [|y xs]; [by apply elem_of_nil in Hp |].
    change (str_join sep (x :: y :: xs))
      with (x +:+ sep +:+ str_join sep (y :: xs)).
    by apply mentions_app_l, mentions_app_l, IH.
Qed.

Lemma mentions_prefix3 a b c rest : mentions (a +:+ b +:+ c +:+ rest) (a +:+ b +:+ c).
Proof. exists EmptyString, rest. by rewrite !append_assoc. Qed.

(** Looks for the place of a word in a text built by appending. *)
Ltac find_mention tac :=
  first [ tac | apply mentions_app_l; find_mention tac ].

(** The guidance for an empty list is the one-line all-clear; the guidance
    for any other list names every package of the list, in a single
    [pip install] line that lists them in their order separated by single
    spaces, and names every required package as well. *)
Theorem get_installation_guidance_names_packages (missing : list string) :
  (missing = [] →
     get_installation_guidance missing = "All dependencies are satisfied.")
  ∧ (missing ≠ [] →
       mentions (get_installation_guidance missing)
                ("   pip install " +:+ str_join " " missing +:+ newline)
       ∧ (∀ p, p ∈ missing → mentions (get_installation_guidance missing) p)
       ∧ (∀ p, p ∈ map fst get_required_packages →
               mentions (get_installation_guidance missing) p)).
Proof.
  split; [by intros -> |]. intros Hne.
  destruct missing as [|m missing]; [done |]. clear Hne.
  unfold get_installation_guidance.
  set (names := str_join " " (m :: missing)).
  set (everything := str_join " " (map fst get_required_packages)).
  cbv zeta. rewrite !append_assoc.
  split; [|split].
  - find_mention ltac:(apply mentions_prefix3).
  - intros p Hp.
    find_mention ltac:(by apply mentions_app_r, str_join_mentions).
  - intros p Hp.
    find_mention ltac:(by apply mentions_app_l, mentions_app_r, str_join_mentions).
Qed.

Lemma missing_nil_iff env (items : list (string * string)) :
  map fst (filter (λ item, ¬ importable env item) items) = []
  ↔ Forall (importable env) items.
Proof.
  induction items as [|item items IH]; [by split; [constructor |] |].
  rewrite filter_cons, Forall_cons.
  destruct (decide (¬ importable env item)) as [Hno|Hyes].
  - split; [done | tauto].
  - rewrite IH. split; [|tauto]. intros Hall. split; [|done].
    by destruct (decide (importable env item)).
Qed.

(** [validate_deps.py] as a program: the exit status is 0 exactly when every
    required package imports and 1 otherwise; the installation guidance is
    printed exactly when the status is 1; a clean run prints nothing after
    the report; and TensorFlow has no part in the status. *)
Theorem validate_deps_main_exit_status env check_deps_exists out :
  let missing := map fst (filter (λ item, ¬ importable env item) get_required_packages) in
  let r := main env check_deps_exists out in
  (r.1 = 0 ↔ Forall (importable env) get_required_packages)
  ∧ (r.1 = 1 ↔ ¬ Forall (importable env) get_required_packages)
  ∧ (r.1 = 1 → get_installation_guidance missing ∈ r.2)
  ∧ (r.1 = 0 →
       r.2 = (validate_dependencies env true
                (out ++ ["LOOK-DGC Dependency Validator"; str_mul "=" 40])).2)
  ∧ (∀ env' check_deps_exists' out',
       (∀ m, m ≠ "tensorflow" → import_module env' m = import_module env m) →
       (main env' check_deps_exists' out').1 = r.1).
Proof.
  assert (∀ e fs o,
            (main e fs o).1
            = (if bool_decide (map fst (filter (λ item, ¬ importable e item)
                                         get_required_packages) = [])
               then 0 else 1)
            ∧ (map fst (filter (λ item, ¬ importable e item) get_required_packages) = [] →
               (main e fs o).2
               = (validate_dependencies e true
                    (o ++ ["LOOK-DGC Dependency Validator"; str_mul "=" 40])).2)
            ∧ (map fst (filter (λ item, ¬ importable e item) get_required_packages) ≠ [] →
               get_installation_guidance
                 (map fst (filter (λ item, ¬ importable e item) get_required_packages))
               ∈ (main e fs o).2)) as Hmain.
  { intros e fs o.
    pose proof (validate_dependencies_result e true
                  (o ++ ["LOOK-DGC Dependency Validator"; str_mul "=" 40])) as Hres.
    destruct (main e fs o) as [status o'] eqn:E.
    unfold main, mbind, Out_bind in E. unfold print at 1 2 in E. cbn [fst snd] in E.
    rewrite <- app_assoc in E. cbn [app] in E.
    destruct (validate_dependencies e true _) as [[[all_good available] missing] o3].
    cbn [fst snd] in Hres |- *. injection Hres as -> -> ->.
    destruct (map fst (filter _ get_required_packages)) as [|m missing'] eqn:Hm.
    - cbn in E. injection E as <- <-. repeat split; done.
    - rewrite bool_decide_eq_false_2 in E by done.
      rewrite bool_decide_eq_false_2 by done.
      unfold print in E.
      destruct fs; cbn -[get_installation_guidance str_mul] in E; injection E as <- <-;
        (split; [done |]; split; [done |]; intros _;
         rewrite ?elem_of_app, ?elem_of_cons; naive_solver). }
  intros missing r.
  destruct (Hmain env check_deps_exists out) as (Hstatus & Hclean & Hguide).
  fold missing r in Hstatus, Hclean, Hguide.
  pose proof (missing_nil_iff env get_required_packages) as Hiff. fold missing in Hiff.
  rewrite Hstatus.
  split; [|split; [|split; [|split]]].
  - case_bool_decide; [tauto |]. split; [done | tauto].
  - case_bool_decide; [|tauto]. split; [done | tauto].
  - case_bool_decide; [done |]. intros _. by apply Hguide.
  - case_bool_decide; [|done]. intros _. by apply Hclean.
  - intros env' fs' out' Hsame.
    destruct (Hmain env' fs' out') as (-> & _).
    assert (Forall (λ item, ¬ importable env' item ↔ ¬ importable env item)
                   get_required_packages) as Hagree.
    { eapply Forall_impl; [apply required_not_tensorflow |].
      intros [pn imn] Hne. unfold importable. simpl in *. by rewrite Hsame. }
    by rewrite (filter_ext_Forall _ _ _ Hagree).
Qed.

End ValidateDepsReportFacts.

(** * Properties of the launcher *)

Section LaunchFacts.
Import ValidateDeps ValidateDepsCli Launch.

Lemma for_items_basic_step env items : ∀ missing available out,
  (for_items items (basic_step env) (missing, available) out).1
  = (missing ++ map fst (filter (λ item, ¬ importable env item) items),
     available ++ map fst (filter (importable env) items)).
Proof.
  induction items as [|[package_name import_name] items IH];
    intros missing available out.
  - cbn. by rewrite !app_nil_r.
  - cbn [for_items]. unfold mbind, Out_bind.
    destruct (decide (importable env (package_name, import_name))) as [Hyes|Hno].
    + rewrite (filter_cons_True (importable env)) by done.
      rewrite (filter_cons_False (λ item, ¬ importable env item))
        by (intros Hn; by apply Hn).
      unfold importable in Hyes. simpl in Hyes.
      unfold basic_step, mbind, Out_bind. rewrite Hyes.
      cbn. rewrite IH. cbn. by rewrite <- app_assoc.
    + rewrite (filter_cons_False (importable env)) by done.
      rewrite (filter_cons_True (λ item, ¬ importable env item)) by done.
      unfold importable in Hno. simpl in Hno.
      unfold basic_step, mbind, Out_bind.
      destruct (import_module env import_name) as [e|]; [|done].
      cbn. rewrite IH. cbn. by rewrite <- app_assoc.
Qed.

Lemma check_dependencies_basic_result env out :
  (check_dependencies_basic env out).1
  = (bool_decide
       (length (map fst (filter (λ item, ¬ importable env item) get_required_packages))
        = 0%nat),
     map fst (filter (importable env) get_required_packages),
     map fst (filter (λ item, ¬ importable env item) get_required_packages)).
Proof.
  unfold check_dependencies_basic, mbind, Out_bind.
  unfold ValidateDeps.print at 1. cbn [fst snd].
  destruct (import_module env "tensorflow");
    unfold ValidateDeps.print at 1; cbn [fst snd mret Out_ret].
  all: match goal with
       | |- context [for_items ?items (basic_step ?e) ([], []) ?o] =>
           pose proof (for_items_basic_step e items [] [] o) as Hloop;
           destruct (for_items items (basic_step e) ([], []) o)
             as [[missing available] o1]
       end;
       cbn [fst] in Hloop; rewrite !app_nil_l in Hloop;
       injection Hloop as -> ->;
       match goal with
       | |- context [if negb ?b then ?m1 else ?m2] =>
           destruct (if negb b then m1 else m2) as [[] o2]
       end; reflexivity.
Qed.

Lemma check_dependencies_result host out :
  (check_dependencies host out).1
  = (bool_decide
       (length (map fst (filter (λ item, ¬ importable (py host) item)
                           get_required_packages)) = 0%nat),
     map fst (filter (importable (py host)) get_required_packages),
     map fst (filter (λ item, ¬ importable (py host) item) get_required_packages)).
Proof.
  unfold check_dependencies.
  destruct (path_exists host _); [|apply check_dependencies_basic_result].
  destruct (import_module (py host) "validate_deps");
    [apply check_dependencies_basic_result | apply validate_dependencies_result].
Qed.

(** The launcher's own dependency check agrees with the validator: in the
    same interpreter [check_dependencies_basic] returns the very triple
    [validate_dependencies] returns, so [check_dependencies] returns that
    triple whether or not [validate_deps.py] is present and imports. *)
Theorem check_dependencies_agrees_with_validator host detailed out out' :
  (check_dependencies_basic (py host) out).1
  = (validate_dependencies (py host) detailed out').1
  ∧ (check_dependencies host out).1
    = (validate_dependencies (py host) detailed out').1.
Proof.
  by rewrite check_dependencies_basic_result, validate_dependencies_result,
    check_dependencies_result.
Qed.

(** What the end of [main] does in the console [c]. *)
Lemma launch_run host gui c :
  let argv := [executable host; "look-dgc.py"] in
  let r := launch host gui c in
  cwd r.2 = Some gui
  ∧ launched r.2 = launched c ++ [(argv, Some gui)]
  ∧ match subprocess_run host argv (Some gui) with
    | Completed | KeyboardInterrupt => r.1 = Returned tt ∧ stdin r.2 = stdin c
    | FileNotFoundError | Failed _ =>
        r.1 = match stdin c with [] => EOFError | _ :: _ => Returned tt end
        ∧ stdin r.2 = tail (stdin c)
    end.
Proof.
  unfold launch, mbind, IO_bind, mret, IO_ret, print, input, chdir, run, lift_out,
    ValidateDeps.print.
  cbn. destruct (subprocess_run host _ _); cbn; try done;
    destruct (stdin c); cbn; done.
Qed.

(** [main] by cases: no [gui] directory; dependencies in order; dependencies
    missing and no answer, the answer yes, or any other answer. *)
Lemma main_run host c :
  let gui := path_join host (here host) "gui" in
  let banner :=
    [ str_mul "=" 50; "  LOOK-DGC - Digital Image Forensics Toolkit";
      "  Developed by: Gopichand"; str_mul "=" 50 ]
    ++ (if connects host
        then [ "  🌐 Status: Online - Full features available";
               "  📡 Hex editor: Online (HexEd.it) + Offline built-in viewer ready" ]
        else [ "  📡 Status: Offline - Limited features available";
               "  💾 Hex editor: Offline built-in viewer ready" ])
    ++ [EmptyString] in
  if path_exists host gui then
    if bool_decide (Forall (importable (py host)) get_required_packages) then
      ∃ out1, main host c
              = launch host gui (mk_Console out1 (stdin c) (cwd c) (launched c))
    else
      match stdin c with
      | [] =>
          ∃ out1, main host c = (EOFError, mk_Console out1 [] (cwd c) (launched c))
      | line :: rest =>
          if bool_decide (str_lower host (str_strip host line) = "y") then
            ∃ out1, main host c
                    = launch host gui (mk_Console out1 rest (cwd c) (launched c))
          else
            ∃ out1, main host c
                    = (match rest with [] => EOFError | _ :: _ => Returned tt end,
                       mk_Console out1 (tail rest) (cwd c) (launched c))
      end
  else
    main host c
    = (match stdin c with [] => EOFError | _ :: _ => Returned tt end,
       mk_Console
         (stdout c ++ banner
            ++ ["Error: GUI directory not found at " +:+ gui; "Press Enter to exit..."])
         (tail (stdin c)) (cwd c) (launched c)).
Proof.
  intros gui banner. subst banner.
  unfold main, check_internet.
  unfold mbind, IO_bind, mret, IO_ret, print, input, chdir, run, lift_out,
    ValidateDeps.print.
  fold gui. cbn -[str_mul check_dependencies launch].
  destruct (connects host); cbn -[str_mul check_dependencies launch];
    (destruct (path_exists host gui); cbn -[str_mul check_dependencies launch];
     [| destruct (stdin c); cbn -[str_mul]; rewrite <- ?app_assoc; reflexivity]).
  all: match goal with
       | |- context [check_dependencies ?h ?o] =>
           pose proof (check_dependencies_result h o) as Hres;
           destruct (check_dependencies h o) as [[[ok av] mi] o1];
           pose proof (missing_nil_iff (py h) get_required_packages) as Hiff
       end;
       cbn [fst] in Hres; injection Hres as -> -> ->;
       destruct (map fst (filter _ get_required_packages)) as [|m mi];
       cbn -[str_mul check_dependencies launch].
  1,3: rewrite bool_decide_eq_true_2 by (by apply Hiff); by eexists.
  all: rewrite bool_decide_eq_false_2 by (intros Hall; by apply Hiff in Hall);
       destruct (stdin c) as [|line rest]; cbn -[str_mul launch]; [by eexists |];
       repeat case_bool_decide; try done; cbn -[str_mul launch].
  all: try (by eexists).
  all: first [ rewrite (bool_decide_eq_false_2 (_ ≠ "y")) by (intros Hn; by apply Hn)
             | rewrite (bool_decide_eq_true_2 (_ ≠ "y")) by done ];
       cbn -[str_mul launch]; try (by eexists).
  all: destruct rest; cbn; by eexists.
Qed.

(** Without the [gui] directory nothing is started and nothing is checked:
    after the banner the launcher reports the missing directory, waits for
    Enter, and returns; the working directory is unchanged and no
    dependency is looked at. *)
Theorem launcher_needs_gui_directory host c :
  let gui := path_join host (here host) "gui" in
  path_exists host gui = false →
  launched (main host c).2 = launched c
  ∧ cwd (main host c).2 = cwd c
  ∧ (∃ banner, length banner = 7%nat
       ∧ stdout (main host c).2
         = stdout c ++ banner
             ++ ["Error: GUI directory not found at " +:+ gui; "Press Enter to exit..."])
  ∧ (main host c).1 = match stdin c with [] => EOFError | _ :: _ => Returned tt end
  ∧ stdin (main host c).2 = tail (stdin c).
Proof.
  intros gui Hgui. pose proof (main_run host c) as Hm. cbv zeta in Hm.
  fold gui in Hm. rewrite Hgui in Hm. rewrite Hm. cbn [fst snd launched cwd stdout stdin].
  repeat split. eexists. split; [|reflexivity]. by destruct (connects host).
Qed.

(** With the [gui] directory in place, the application is started exactly
    when every required package imports or the user, asked, answers with a
    line that is "y" once stripped and lowered.  It is then started once, as
    [sys.executable look-dgc.py], from the [gui] directory; otherwise
    nothing is started and the working directory is left alone. *)
Theorem launcher_launch_decision host c :
  let gui := path_join host (here host) "gui" in
  let argv := [executable host; "look-dgc.py"] in
  let proceeds :=
    Forall (importable (py host)) get_required_packages
    ∨ ∃ line rest, stdin c = line :: rest
                   ∧ str_lower host (str_strip host line) = "y" in
  path_exists host gui = true →
  (proceeds →
     launched (main host c).2 = launched c ++ [(argv, Some gui)]
     ∧ cwd (main host c).2 = Some gui)
  ∧ (¬ proceeds →
     launched (main host c).2 = launched c ∧ cwd (main host c).2 = cwd c).
Proof.
  intros gui argv proceeds Hgui. subst proceeds.
  pose proof (main_run host c) as Hm. cbv zeta in Hm.
  fold gui in Hm. rewrite Hgui in Hm.
  case_bool_decide as Hdeps.
  - destruct Hm as [out1 ->].
    pose proof (launch_run host gui (mk_Console out1 (stdin c) (cwd c) (launched c))) as Hl.
    cbv zeta in Hl. destruct Hl as (Hcwd & Hlaunched & _).
    split; [done | tauto].
  - destruct (stdin c) as [|line rest].
    + destruct Hm as [out1 ->]. split; [|done].
      intros [Hall|(? & ? & [=] & _)]. done.
    + case_bool_decide as Hchoice.
      * destruct Hm as [out1 ->].
        pose proof (launch_run host gui (mk_Console out1 rest (cwd c) (launched c))) as Hl.
        cbv zeta in Hl. destruct Hl as (Hcwd & Hlaunched & _).
        split; [done |]. intros Hno. exfalso. apply Hno. right. by eexists _, _.
      * destruct Hm as [out1 ->]. split; [|done].
        intros [Hall|(? & ? & [= <- <-] & Hy)]; done.
Qed.

(** Dropping the first line of the input, if there is one, uses at most one
    line. *)
Lemma tail_uses_one (ins : list string) :
  ∃ used, ins = used ++ tail ins ∧ (length used ≤ 1)%nat.
Proof.
  destruct ins as [|l rest]; [exists [] | exists [l]]; split; simpl; done || lia.
Qed.

(** What the launcher asks of standard input.  Whatever the machine and the
    application do, [main] reads at most two lines, and it ends with
    [EOFError] only when it has used up its input.  With the [gui] directory
    in place and every required package importing, a run of the application
    that ends normally or by an interrupt from the keyboard reads nothing
    at all. *)
Theorem launcher_reads_at_most_two_lines host c :
  let gui := path_join host (here host) "gui" in
  let argv := [executable host; "look-dgc.py"] in
  (∃ used, stdin c = used ++ stdin (main host c).2 ∧ (length used ≤ 2)%nat)
  ∧ ((main host c).1 = EOFError → stdin (main host c).2 = [])
  ∧ (path_exists host gui = true →
     Forall (importable (py host)) get_required_packages →
     subprocess_run host argv (Some gui) = Completed
     ∨ subprocess_run host argv (Some gui) = KeyboardInterrupt →
     stdin (main host c).2 = stdin c).
Proof.
  intros gui argv.
  pose proof (main_run host c) as Hm. cbv zeta in Hm. fold gui in Hm.
  assert (∀ out1 ins,
            let r := launch host gui (mk_Console out1 ins (cwd c) (launched c)) in
            (∃ used, ins = used ++ stdin r.2 ∧ (length used ≤ 1)%nat)
            ∧ (r.1 = EOFError → stdin r.2 = [])
            ∧ (subprocess_run host argv (Some gui) = Completed
               ∨ subprocess_run host argv (Some gui) = KeyboardInterrupt →
               stdin r.2 = ins)) as Hlaunch.
  { intros out1 ins.
    pose proof (launch_run host gui (mk_Console out1 ins (cwd c) (launched c))) as Hl.
    cbv zeta in Hl |- *. destruct Hl as (_ & _ & Hl). fold argv in Hl.
    cbn [stdin] in Hl.
    destruct (subprocess_run host argv (Some gui)); destruct Hl as [-> ->].
    1,2: split; [exists []; split; simpl; done || lia |]; split; done.
    all: split; [apply tail_uses_one |];
         split; [by destruct ins | intros [?|?]; done]. }
  destruct (path_exists host gui) eqn:Hgui.
  - case_bool_decide as Hdeps.
    + destruct Hm as [out1 ->].
      destruct (Hlaunch out1 (stdin c)) as ((used & Hu & Hlen) & Heof & Hclean).
      split; [exists used; split; [done | lia] |]. split; [done |].
      intros _ _ Hproc. by apply Hclean.
    + split; [|split; [|intros _ Hall; done]].
      * destruct (stdin c) as [|line rest].
        { destruct Hm as [out1 ->]. exists []. split; simpl; done || lia. }
        case_bool_decide.
        -- destruct Hm as [out1 ->].
           destruct (Hlaunch out1 rest) as ((used & Hu & Hlen) & _ & _).
           exists (line :: used). split; [simpl; by f_equal | simpl; lia].
        -- destruct Hm as [out1 ->]. cbn [snd stdin].
           destruct (tail_uses_one rest) as (used & Hu & Hlen).
           exists (line :: used). split; [simpl; by f_equal | simpl; lia].
      * destruct (stdin c) as [|line rest].
        { by destruct Hm as [out1 ->]. }
        case_bool_decide.
        -- destruct Hm as [out1 ->].
           destruct (Hlaunch out1 rest) as (_ & Heof & _). done.
        -- destruct Hm as [out1 ->]. cbn [fst snd stdin]. by destruct rest.
  - rewrite Hm. cbn [fst snd stdin].
    split; [|split; [by destruct (stdin c) | done]].
    destruct (tail_uses_one (stdin c)) as (used & Hu & Hlen).
    exists used. split; [done | lia].
Qed.

End LaunchFacts.

(** * Properties of the test runner *)

Section RunTestsFacts.
Import RunTests.
Variable host : Host.

Lemma run_command_run cmd dir st :
  let r := run_command host cmd dir st in
  r.1 = exits_zero host cmd dir
  ∧ executed r.2 = executed st ++ [(cmd, dir)]
  ∧ cwd r.2 = cwd st.
Proof.
  unfold run_command, exits_zero, mbind, T_bind, print, print_stderr, when. cbn.
  destruct (subprocess_run host cmd dir) as [out err|rc out err]; cbn;
    repeat (match goal with |- context [truthy ?x] => destruct (truthy x) end; cbn);
    done.
Qed.

Lemma announced_run (msg cmd : string) dir st :
  let r := (print msg;; run_command host cmd dir) st in
  r.1 = exits_zero host cmd dir
  ∧ executed r.2 = executed st ++ [(cmd, dir)]
  ∧ cwd r.2 = cwd st.
Proof.
  unfold mbind, T_bind, print at 1. cbn [fst snd].
  apply (run_command_run cmd dir
           (mk_State (console st ++ [ToStdout msg]) (executed st) (cwd st))).
Qed.

(** One optional step of [main]: the tests are run when [b] holds, and a
    failure clears [success]. *)
Lemma optional_step_run (b : bool) (msg cmd : string) dir (success : bool) st :
  let r := (if b
            then ok ← (print msg;; run_command host cmd dir);
                 mret (if ok : bool then success else false)
            else mret success) st in
  r.1 = success && (if b then exits_zero host cmd dir else true)
  ∧ executed r.2 = executed st ++ (if b then [(cmd, dir)] else [])
  ∧ cwd r.2 = cwd st.
Proof.
  cbv zeta.
  match goal with
  | |- context [(if b then ?m1 else ?m2) st] =>
      destruct ((if b then m1 else m2) st) as [res st2] eqn:E
  end.
  cbn [fst snd].
  destruct b.
  - pose proof (announced_run msg cmd dir st) as H. cbv zeta in H.
    unfold mbind at 1, T_bind at 1 in E.
    destruct ((print msg;; run_command host cmd dir) st) as [ok st1].
    cbn [fst snd] in H. destruct H as (Hok & Hex & Hcwd).
    cbn in E. injection E as <- <-. rewrite Hok, Hex, Hcwd. split; [|done].
    by destruct (exits_zero host cmd dir), success.
  - cbn in E. injection E as <- <-. rewrite app_nil_r. by destruct success.
Qed.

Lemma run_selected_run args (all0 success : bool) st :
  let v := setup args || verbose args in
  let c := setup args || coverage args in
  let all' := setup args || all0 in
  let tests :=
    (if unit args then [(unit_command v c, Some "tests")] else [])
    ++ (if integration args then [(integration_command v, Some "tests")] else [])
    ++ (if all' then [(all_command v c, Some "tests")] else []) in
  let r := run_selected host args all0 success st in
  executed r.2 = executed st ++ tests
  ∧ cwd r.2 = cwd st
  ∧ r.1 = if success && forallb (λ p, exits_zero host p.1 p.2) tests
          then Return else SysExit 1.
Proof.
  intros v c all' tests. cbv zeta.
  destruct (run_selected host args all0 success st) as [res stf] eqn:E.
  cbn [fst snd]. unfold run_selected in E.
  assert ((if setup args then (true, true, true)
           else (all0, verbose args, coverage args)) = (all', v, c)) as Htuple.
  { subst v c all'. by destruct (setup args). }
  rewrite Htuple in E. lazy beta iota zeta in E.
  unfold mbind at 1, T_bind at 1 in E.
  pose proof (optional_step_run (unit args) "Running unit tests..."
                (unit_command v c) (Some "tests") success st) as H1.
  cbv zeta in H1.
  change (print "Running unit tests...";; run_command host (unit_command v c) (Some "tests"))
    with (run_unit_tests host v c) in H1.
  match type of E with
  | context [(if unit args then ?m1 else ?m2) st] =>
      destruct ((if unit args then m1 else m2) st) as [s1 st1]
  end.
  cbn [fst snd] in H1. destruct H1 as (-> & E1 & C1).
  unfold mbind at 1, T_bind at 1 in E.
  pose proof (optional_step_run (integration args) "Running integration tests..."
                (integration_command v) (Some "tests")
                (success && (if unit args
                             then exits_zero host (unit_command v c) (Some "tests")
                             else true)) st1) as H2.
  cbv zeta in H2.
  change (print "Running integration tests...";;
          run_command host (integration_command v) (Some "tests"))
    with (run_integration_tests host v) in H2.
  match type of E with
  | context [(if integration args then ?m1 else ?m2) st1] =>
      destruct ((if integration args then m1 else m2) st1) as [s2 st2]
  end.
  cbn [fst snd] in H2. destruct H2 as (-> & E2 & C2).
  unfold mbind at 1, T_bind at 1 in E.
  pose proof (optional_step_run all' "Running all tests..."
                (all_command v c) (Some "tests")
                (success && (if unit args
                             then exits_zero host (unit_command v c) (Some "tests")
                             else true)
                 && (if integration args
                     then exits_zero host (integration_command v) (Some "tests")
                     else true)) st2) as H3.
  cbv zeta in H3.
  change (print "Running all tests...";; run_command host (all_command v c) (Some "tests"))
    with (run_all_tests host v c) in H3.
  match type of E with
  | context [(if all' then ?m1 else ?m2) st2] =>
      destruct ((if all' then m1 else m2) st2) as [s3 st3]
  end.
  cbn [fst snd] in H3. destruct H3 as (-> & E3 & C3).
  assert (success
          && (if unit args then exits_zero host (unit_command v c) (Some "tests") else true)
          && (if integration args
              then exits_zero host (integration_command v) (Some "tests") else true)
          && (if all' then exits_zero host (all_command v c) (Some "tests") else true)
          = success && forallb (λ p, exits_zero host p.1 p.2) tests) as Hall.
  { subst tests. rewrite !forallb_app.
    destruct (unit args), (integration args), all'; cbn [forallb fst snd];
      rewrite ?andb_true_r, ?andb_true_l, <- ?andb_assoc; reflexivity. }
  rewrite Hall in E.
  assert (executed st3 = executed st ++ tests) as Hex.
  { subst tests. rewrite E3, E2, E1, <- !app_assoc. done. }
  assert (cwd st3 = cwd st) as Hcwd by congruence.
  destruct (success && forallb _ tests);
    unfold mbind, T_bind, print, when in E; destruct c; cbn in E;
    injection E as <- <-; done.
Qed.

(** The runner as a whole.  It changes to the project root; runs the
    installation when asked to (by [--install] or [--setup]); then, unless
    the installation failed without [--setup], runs the selected suites in
    the order unit, integration, all, where "all" is also what runs when
    none is selected and [--setup] adds "all", verbosity and coverage.  It
    ends with [sys.exit(1)] exactly when it got to the suites and one of the
    commands it ran failed. *)
Theorem run_tests_main_commands_and_status args st :
  let inst := install args || setup args in
  let install_command := "pip install -r test_requirements.txt" in
  let early := inst && negb (exits_zero host install_command (Some "tests"))
                    && negb (setup args) in
  let v := setup args || verbose args in
  let c := setup args || coverage args in
  let all' := setup args || all args
              || negb (unit args || integration args || all args) in
  let tests :=
    (if unit args then [(unit_command v c, Some "tests")] else [])
    ++ (if integration args then [(integration_command v, Some "tests")] else [])
    ++ (if all' then [(all_command v c, Some "tests")] else []) in
  let new := (if inst then [(install_command, Some "tests")] else [])
             ++ (if early then [] else tests) in
  let r := main host args st in
  executed r.2 = executed st ++ new
  ∧ cwd r.2 = Some (project_root host)
  ∧ r.1 = if early then Return
          else if forallb (λ p, exits_zero host p.1 p.2) new then Return
          else SysExit 1.
Proof.
  intros inst install_command early v c all' tests new. cbv zeta.
  destruct (main host args st) as [res stf] eqn:E. cbn [fst snd].
  unfold main in E.
  unfold mbind at 1, T_bind at 1, chdir in E. cbn [fst snd] in E.
  set (st0 := mk_State (console st) (executed st) (Some (project_root host))) in E.
  set (a0 := if negb (unit args || integration args || all args) then true else all args)
    in E.
  assert (setup args || a0 = all') as Hall.
  { subst a0 all'. destruct (setup args), (unit args), (integration args), (all args); done. }
  fold inst in E. destruct inst eqn:Hinst.
  - unfold mbind at 1, T_bind at 1 in E.
    pose proof (announced_run "Installing test dependencies..." install_command
                  (Some "tests") st0) as Hi. cbv zeta in Hi.
    change (print "Installing test dependencies...";;
            run_command host install_command (Some "tests"))
      with (install_test_deps host) in Hi.
    destruct (install_test_deps host st0) as [ok st1].
    cbn [fst snd] in Hi. destruct Hi as (-> & E1 & C1).
    subst new early.
    destruct (exits_zero host install_command (Some "tests")) eqn:Hok;
      cbn [negb andb] in E |- *.
    + pose proof (run_selected_run args a0 true st1) as Hs. cbv zeta in Hs.
      rewrite Hall in Hs. fold v c tests in Hs. rewrite E in Hs. cbn [fst snd] in Hs.
      destruct Hs as (E2 & C2 & ->).
      rewrite E2, E1, C2, C1. cbn [app forallb fst snd]. fold install_command.
      rewrite Hok, <- app_assoc. cbn [andb]. done.
    + destruct (setup args) eqn:Hsetup; cbn [negb] in E |- *.
      * pose proof (run_selected_run args a0 false st1) as Hs. cbv zeta in Hs.
        rewrite Hsetup in Hs. rewrite E in Hs. cbn [fst snd orb] in Hs.
        subst tests v c all'. rewrite ?Hsetup. cbn [orb].
        destruct Hs as (E2 & C2 & ->).
        rewrite E2, E1, C2, C1. cbn [app forallb fst snd andb]. fold install_command.
        rewrite Hok, <- app_assoc. cbn [andb app]. done.
      * cbn in E. injection E as <- <-. rewrite E1, C1, app_nil_r. done.
  - subst new early. cbn [andb app].
    pose proof (run_selected_run args a0 true st0) as Hs. cbv zeta in Hs.
    rewrite Hall in Hs. fold v c tests in Hs. rewrite E in Hs. cbn [fst snd] in Hs.
    destruct Hs as (E2 & C2 & ->). rewrite E2, C2. cbn [andb]. done.
Qed.

(** A failed installation under [--install] alone is not reported by the
    exit status: [main] returns normally right after it, and no test is
    run. *)
Theorem run_tests_install_failure_returns_quietly args st :
  install args = true → setup args = false →
  exits_zero host "pip install -r test_requirements.txt" (Some "tests") = false →
  (main host args st).1 = Return
  ∧ executed (main host args st).2
    = executed st ++ [("pip install -r test_requirements.txt", Some "tests")].
Proof.
  intros Hinstall Hsetup Hfail.
  destruct (main host args st) as [res stf] eqn:E. cbn [fst snd].
  unfold main in E.
  unfold mbind at 1, T_bind at 1, chdir in E. cbn [fst snd] in E.
  set (st0 := mk_State (console st) (executed st) (Some (project_root host))) in E.
  rewrite Hinstall in E. cbn [orb] in E.
  unfold mbind at 1, T_bind at 1 in E.
  pose proof (announced_run "Installing test dependencies..."
                "pip install -r test_requirements.txt" (Some "tests") st0) as Hi.
  cbv zeta in Hi.
  change (print "Installing test dependencies...";;
          run_command host "pip install -r test_requirements.txt" (Some "tests"))
    with (install_test_deps host) in Hi.
  destruct (install_test_deps host st0) as [ok st1].
  cbn [fst snd] in Hi. destruct Hi as (-> & E1 & _).
  rewrite Hfail, Hsetup in E. cbn in E. injection E as <- <-.
  rewrite E1. done.
Qed.

End RunTestsFacts.

(** * A further property of the loader *)

Section LoaderFacts.
Import Utility.

Lemma replicate_gray_length (xs : list Z) :
  length (replicate_gray xs) = (3 * length xs)%nat.
Proof. induction xs as [|x xs IH]; simpl in *; lia. Qed.

(** Whatever the source and the demosaicing capability, an image the loader
    returns has exactly three channels and a non-zero area, and it is
    well-shaped whenever the decoded raster was; a three-channel raster is
    returned as it is. *)
Theorem load_image_always_three_channels demosaic src img :
  load_image demosaic src = inr img →
  (∃ h w, shape img = [h; w; 3%nat] ∧ (h * w ≠ 0)%nat)
  ∧ (∀ buf, src = Decoded buf → well_shaped buf → well_shaped img)
  ∧ (∀ buf h w, src = Decoded buf → shape buf = [h; w; 3%nat] → img = buf).
Proof.
  assert (∀ buf, canonicalize buf = inr img →
            (∃ h w, shape img = [h; w; 3%nat] ∧ (h * w ≠ 0)%nat)
            ∧ (well_shaped buf → well_shaped img)
            ∧ (∀ h w, shape buf = [h; w; 3%nat] → img = buf)) as Hcanon.
  { intros buf. unfold canonicalize, well_shaped, size.
    destruct (decide _) as [|Hne]; [done |]. unfold size in Hne.
    destruct (shape buf) as [|h [|w [|ch [|? ?]]]] eqn:Hshape; try done.
    - intros [= <-]. simpl in *. split; [exists h, w; split; [done | lia] |].
      split; [|done]. intros Hwf. rewrite replicate_gray_length. lia.
    - destruct ch as [|[|[|[|[|ch]]]]]; try done; intros [= <-]; simpl in *.
      + split; [exists h, w; split; [done | lia] |].
        split; [|done]. intros Hwf. rewrite replicate_gray_length. lia.
      + split; [exists h, w; split; [done | lia] |]. split; [|done].
        intros Hwf. by rewrite Hshape.
      + split; [exists h, w; split; [done | lia] |]. split; [|done].
        intros Hwf. destruct (drop_alpha_lookup (h * w) (data buf)) as [Hl _]; lia.
    - destruct ch as [|[|[|[|[|ch]]]]]; done. }
  unfold load_image. intros Hload.
  destruct src as [|buf|bytes]; [done | |].
  - destruct (Hcanon buf Hload) as (Hsh & Hwf & Hid).
    split; [done |]. split.
    + by intros ? [= <-].
    + intros ? h w [= <-]. apply Hid.
  - destruct demosaic as [f|]; [|done].
    destruct (Hcanon (f bytes) Hload) as (Hsh & _). by repeat split.
Qed.

End LoaderFacts.

(** * The further properties on concrete inputs *)

Section MoreWitnesses.
Import MultipleCompression WidgetSession Utility ValidateDeps ValidateDepsCli.
Import Fixtures MoreFixtures.

Lemma session_frame_witness :
  let w' := session (cv := toy) [ShowGraph; ShowHeatmap; ShowGraph] w1 in
  image w' = image w1
  ∧ heap w' !! image w' = Some img0
  ∧ heap w1 `prefix_of` heap w'
  ∧ ∃ cs, codec_calls w' = codec_calls w1 ++ cs
          ∧ Forall (call_of img0) cs
          ∧ (length cs ≤ 20 * presses ShowGraph [ShowGraph; ShowHeatmap; ShowGraph]
                         + 2 * presses ShowHeatmap [ShowGraph; ShowHeatmap; ShowGraph])%nat.
Proof.
  apply (session_frame (cv := toy) [ShowGraph; ShowHeatmap; ShowGraph] w1 img0).
  reflexivity.
Defined.

Lemma session_display_consistent_witness :
  display_consistent (cv := toy)
    (session (cv := toy) [ShowHeatmap; ShowGraph; ShowHeatmap] (init [img0] 0%nat)).
Proof.
  apply (session_display_consistent (cv := toy) [ShowHeatmap; ShowGraph; ShowHeatmap]
           (init [img0] 0%nat) img0).
  - reflexivity.
  - left. reflexivity.
Defined.

Lemma buttons_commute_witness :
  let gh := run_heatmap (cv := toy) (run_graph (cv := toy) w1).2 in
  let hg := run_graph (cv := toy) (run_heatmap (cv := toy) w1).2 in
  gh.1 = (run_heatmap (cv := toy) w1).1
  ∧ hg.1 = (run_graph (cv := toy) w1).1
  ∧ result_label gh.2 = result_label hg.2
  ∧ figure gh.2 = figure hg.2
  ∧ heatmap_label gh.2 = heatmap_label hg.2
  ∧ info_messages gh.2 = info_messages hg.2
  ∧ canvas_draws gh.2 = canvas_draws hg.2.
Proof. apply (buttons_commute (cv := toy) w1 img0). reflexivity. Defined.

Lemma single_channel_image_is_rejected_witness :
  (run_graph (cv := gray_codec) w_gray).1 = Raise (cv2_error StsUnmatchedSizes)
  ∧ (run_heatmap (cv := gray_codec) w_gray).1 = Raise (cv2_error StsUnmatchedSizes)
  ∧ (run_graph (cv := gray_codec) w_gray_row).1 = Raise (cv2_error StsAssert).
Proof.
  assert (∀ buf dec, imdecode (Native := gray_codec) buf 1 = Ok (Some dec) →
                     ∃ h' wd', shape dec = [h'; wd'; 3%nat]) as Hcolour.
  { intros buf dec. simpl.
    destruct (data buf) as [|h [|w body]]; intros Hdec; inversion Hdec.
    eexists _, _. reflexivity. }
  destruct (single_channel_image_is_rejected (cv := gray_codec) w_gray gray0 2 3
              eq_refl eq_refl Hcolour)
    as [(e & Hr & _ & _ & Hwhy) (e' & Hr' & _ & _ & Hwhy')].
  destruct (single_channel_image_is_rejected (cv := gray_codec) w_gray_row gray_row 1 3
              eq_refl eq_refl Hcolour)
    as [(e1 & Hr1 & _ & _ & Hwhy1) _].
  destruct (Hwhy true _ _ 2%nat 3%nat eq_refl eq_refl eq_refl) as [_ Hsize].
  destruct (Hwhy' true _ _ 2%nat 3%nat eq_refl eq_refl eq_refl) as [_ Hsize'].
  destruct (Hwhy1 true _ _ 1%nat 3%nat eq_refl eq_refl eq_refl) as [Hscalar _].
  rewrite Hr, Hr', Hr1.
  rewrite Hsize by lia. rewrite Hsize' by lia. rewrite Hscalar by lia.
  repeat split.
Defined.

Lemma undecodable_buffer_is_not_detected_witness :
  (run_graph (cv := mute_codec) w0).1 = Raise (cv2_error StsUnmatchedSizes)
  ∧ (run_heatmap (cv := mute_codec) w0).1 = Raise (cv2_error StsUnmatchedSizes).
Proof.
  destruct (undecodable_buffer_is_not_detected (cv := mute_codec) w0 img0 2 2 [3%nat])
    as [Hgraph Hheat].
  - reflexivity.
  - reflexivity.
  - right. exists 3%nat. split; [reflexivity | unfold CV_CN_MAX; lia].
  - lia.
  - destruct (Hgraph true _ eq_refl eq_refl) as [Hg _].
    destruct (Hheat true _ eq_refl eq_refl) as [Hh _].
    split; assumption.
Defined.

Lemma run_graph_one_round_trip_per_level_witness :
  let bufs := λ q, mk_ndarray [15%nat]
                     (toy_step q :: 2 :: 2 :: map (λ x, x / toy_step q) (data img0)) in
  (run_graph (cv := toy) w0).1 = Ok tt
  ∧ codec_calls (run_graph (cv := toy) w0).2
    = codec_calls w0
      ++ flat_map (λ q, [CallImencode img0 q; CallImdecode (bufs q) 1]) qualities
  ∧ length (codec_calls (run_graph (cv := toy) w0).2) = (length (codec_calls w0) + 20)%nat.
Proof.
  intros bufs.
  apply (run_graph_one_round_trip_per_level (cv := toy) w0 img0 bufs).
  - reflexivity.
  - repeat (constructor;
            [eexists _, _; split; [reflexivity | split; reflexivity] |]).
    constructor.
Defined.

Lemma run_heatmap_pixmap_geometry_witness :
  (run_heatmap (cv := toy) w0).1 = Ok tt
  ∧ ∃ p, heatmap_label (run_heatmap (cv := toy) w0).2 = Some p
         ∧ pm_width p = 2%nat ∧ pm_height p = 2%nat
         ∧ pm_bytesPerLine p = (3 * 2)%nat
         ∧ pm_bits p = [1; 3; 3; 0; 2; 2; 3; 1; 3; 3; 1; 2]
         ∧ (pm_height p * pm_bytesPerLine p = length (pm_bits p))%nat.
Proof.
  apply (run_heatmap_pixmap_geometry (cv := toy) w0 img0
           (mk_ndarray [2; 2; 3]%nat [1; 3; 3; 0; 2; 2; 3; 1; 3; 3; 1; 2])
           (mk_ndarray [2; 2; 3]%nat [1; 3; 3; 0; 2; 2; 3; 1; 3; 3; 1; 2]) 2 2 3);
    reflexivity.
Defined.

Lemma heatmap_difference_blank_iff_lossless_witness :
  ∃ l diff,
    (heatmap_difference (cv := toy) w0).1 = Ok l
    ∧ heap (heatmap_difference (cv := toy) w0).2 !! l = Some diff
    ∧ shape diff = shape img0 ∧ well_shaped diff ∧ uint8 diff
    ∧ (Forall (λ v, v = 0) (data diff) ↔ toy_round_trip 70 = img0).
Proof.
  apply (heatmap_difference_blank_iff_lossless (cv := toy) w0 img0 true toy_buf70
           (toy_round_trip 70)); try reflexivity.
  - unfold uint8. simpl. repeat constructor; lia.
  - unfold uint8. vm_compute data. repeat constructor; lia.
Defined.

Lemma get_installation_guidance_names_packages_witness :
  get_installation_guidance [] = "All dependencies are satisfied."
  ∧ mentions (get_installation_guidance ["rawpy"; "xgboost"])
             ("   pip install " +:+ "rawpy xgboost" +:+ newline)
  ∧ mentions (get_installation_guidance ["rawpy"; "xgboost"]) "xgboost".
Proof.
  destruct (get_installation_guidance_names_packages []) as [Hnone _].
  destruct (get_installation_guidance_names_packages ["rawpy"; "xgboost"]) as [_ Hsome].
  destruct Hsome as (Hline & Hnames & _); [discriminate |].
  split; [apply Hnone; reflexivity |].
  split; [exact Hline |].
  apply Hnames. apply list_elem_of_In. simpl. auto.
Defined.

Lemma validate_deps_main_exit_status_witness :
  (main env0 true []).1 = 1
  ∧ (main env_all false []).1 = 0
  ∧ get_installation_guidance ["rawpy"; "xgboost"] ∈ (main env0 true []).2
  ∧ (main env0_no_tf false ["earlier output"]).1 = (main env0 true []).1.
Proof.
  destruct (validate_deps_main_exit_status env0 true [])
    as (_ & Hone & Hguide & _ & Htf).
  destruct (validate_deps_main_exit_status env_all false []) as (Hzero & _).
  assert ((main env0 true []).1 = 1) as Hfails.
  { apply Hone. apply (bool_decide_unpack _). vm_compute. reflexivity. }
  split; [exact Hfails |].
  split.
  { apply Hzero. apply (bool_decide_unpack _). vm_compute. reflexivity. }
  split; [exact (Hguide Hfails) |].
  apply Htf. intros m Hm. simpl. by rewrite decide_False.
Defined.

Lemma launcher_needs_gui_directory_witness :
  Launch.launched (Launch.main (launch_host env_all false Launch.Completed)
                     (console_with ["anything"])).2 = []
  ∧ (Launch.main (launch_host env_all false Launch.Completed)
       (console_with ["anything"])).1 = Launch.Returned tt.
Proof.
  destruct (launcher_needs_gui_directory (launch_host env_all false Launch.Completed)
              (console_with ["anything"])) as (Hl & _ & _ & Hr & _).
  - reflexivity.
  - split; [exact Hl | exact Hr].
Defined.

Lemma launcher_launch_decision_witness :
  Launch.launched (Launch.main (launch_host env0 true Launch.Completed)
                     (console_with ["Y"])).2
  = [(["/usr/bin/python3"; "look-dgc.py"], Some "/opt/look/gui")]
  ∧ Launch.launched (Launch.main (launch_host env0 true Launch.Completed)
                       (console_with ["n"; "go on"])).2 = [].
Proof.
  destruct (launcher_launch_decision (launch_host env0 true Launch.Completed)
              (console_with ["Y"])) as [Hyes _]; [reflexivity |].
  destruct (launcher_launch_decision (launch_host env0 true Launch.Completed)
              (console_with ["n"; "go on"])) as [_ Hno]; [reflexivity |].
  split.
  - apply Hyes. right. eexists _, _. split; reflexivity.
  - apply Hno. intros [Hall|(line & rest & Heq & Hy)].
    + revert Hall. apply (bool_decide_unpack _). vm_compute. reflexivity.
    + simpl in Heq. injection Heq as <- <-. simpl in Hy. discriminate Hy.
Defined.

Lemma launcher_reads_at_most_two_lines_witness :
  (∃ used, ["y"; "ok"; "left over"]
           = used ++ Launch.stdin
                       (Launch.main (launch_host env0 true (Launch.Failed "exit status 1"))
                          (console_with ["y"; "ok"; "left over"])).2
           ∧ (length used ≤ 2)%nat)
  ∧ Launch.stdin (Launch.main (launch_host env_all true Launch.KeyboardInterrupt)
                    (console_with ["unread"])).2 = ["unread"].
Proof.
  destruct (launcher_reads_at_most_two_lines
              (launch_host env0 true (Launch.Failed "exit status 1"))
              (console_with ["y"; "ok"; "left over"])) as (Htwo & _ & _).
  destruct (launcher_reads_at_most_two_lines
              (launch_host env_all true Launch.KeyboardInterrupt)
              (console_with ["unread"])) as (_ & _ & Hclean).
  split.
  - exact Htwo.
  - apply Hclean.
    + reflexivity.
    + apply (bool_decide_unpack _). vm_compute. reflexivity.
    + right. reflexivity.
Defined.

Lemma run_tests_install_failure_returns_quietly_witness :
  (RunTests.main runner_host
     (RunTests.mk_Args true false false false true false false) runner_start).1
  = RunTests.Return
  ∧ RunTests.executed
      (RunTests.main runner_host
         (RunTests.mk_Args true false false false true false false) runner_start).2
    = [("pip install -r test_requirements.txt", Some "tests")].
Proof.
  apply (run_tests_install_failure_returns_quietly runner_host
           (RunTests.mk_Args true false false false true false false) runner_start);
    reflexivity.
Defined.

Lemma load_image_always_three_channels_witness :
  (∃ h w, shape (mk_ndarray [2; 3; 3]%nat (replicate_gray (data gray0))) = [h; w; 3%nat]
          ∧ (h * w ≠ 0)%nat)
  ∧ well_shaped (mk_ndarray [2; 3; 3]%nat (replicate_gray (data gray0))).
Proof.
  destruct (load_image_always_three_channels None (Decoded gray0)
              (mk_ndarray [2; 3; 3]%nat (replicate_gray (data gray0))))
    as (Hshape & Hwf & _); [reflexivity |].
  split; [exact Hshape |]. apply (Hwf gray0); reflexivity.
Defined.

End MoreWitnesses.
